(** * jamm-pwa: location gate, screen controller and live-map state machine

  A shallow embedding of [src/App.tsx] (the React component [App], in
  its two variants) and the properties its specification states.

  Conventions of the embedding.
  - A JavaScript [number] holding a coordinate is modelled twice.  In
    the state machine it is a real number, and the functions of [Math]
    are the real functions of the same name: this is the arithmetic of
    the program without its rounding, and the sums and the distance
    there are exact where the program rounds them.  [Module Double]
    gives [calculateDistance] in the arithmetic the program runs, IEEE
    754 binary64, over the [Math] library of the platform.  The two
    differ: in binary64 the haversine term of two antipodal points can
    round above 1, and the program then returns [NaN], where the real
    function returns half the circumference.
  - React state is a record; a handler is a computation in [Js], the
    monad of state transformers that may throw.  A call of a [useState]
    setter is a field update, the last call winning.
  - The browser (console, [localStorage], interval timers, geolocation)
    and the backing store are part of the same record: effects are
    appended to [trace].
  - What the outside world answers (a geolocation outcome, a fetch
    response, the outcome of a write, [Math.random]) is an argument;
    an awaited answer is handled in one step.
  - An [Event] is what can happen to the mounted component; [step] runs
    its handler and then the movement effect, as a render does. *)

From Stdlib Require Import Floats.
From Stdlib Require Import Reals Zfloor Lra Lia ZArith String List.
From stdpp Require Import base option list gmap strings.

(** A decimal literal of type [float] denotes the nearest double, as in
    JavaScript. *)
#[local] Set Warnings "-inexact-float".

(** ** The functions of [Math] used by the program *)

Module Math.
Local Open Scope R_scope.

Definition PI : R := Rtrigo1.PI.
Definition sin : R -> R := Rtrigo_def.sin.
Definition cos : R -> R := Rtrigo_def.cos.
Definition sqrt : R -> R := R_sqrt.sqrt.

(** [Math.atan2 y x]: the angle of the point [(x, y)], in (-PI, PI]. *)
Definition atan2 (y x : R) : R :=
  if Rlt_dec 0 x then atan (y / x)
  else if Rlt_dec x 0 then
    (if Rle_dec 0 y then atan (y / x) + Rtrigo1.PI
     else atan (y / x) - Rtrigo1.PI)
  else if Rlt_dec 0 y then Rtrigo1.PI / 2
  else if Rlt_dec y 0 then - (Rtrigo1.PI / 2)
  else 0.
End Math.

(** ** Geofence evaluator *)

Section Geofence.
Local Open Scope R_scope.

(** [const TRICHY_CENTER = { lat: 10.8155, lng: 78.7047 }] *)
Definition TRICHY_CENTER_lat : R := 10.8155.
Definition TRICHY_CENTER_lng : R := 78.7047.
(** [const TRICHY_RADIUS_KM = 15] *)
Definition TRICHY_RADIUS_KM : R := 15.

(** The quantity [a] of [calculateDistance]. *)
Definition haversine_a (lat1 lon1 lat2 lon2 : R) : R :=
  let dLat := (lat2 - lat1) * Math.PI / 180 in
  let dLon := (lon2 - lon1) * Math.PI / 180 in
  Math.sin (dLat / 2) * Math.sin (dLat / 2) +
  Math.cos (lat1 * Math.PI / 180) * Math.cos (lat2 * Math.PI / 180) *
  Math.sin (dLon / 2) * Math.sin (dLon / 2).

(** [calculateDistance] (Haversine formula), [App.tsx] lines 811-821. *)
Definition calculateDistance (lat1 lon1 lat2 lon2 : R) : R :=
  let R_ := 6371 in
  let a := haversine_a lat1 lon1 lat2 lon2 in
  let c := 2 * Math.atan2 (Math.sqrt a) (Math.sqrt (1 - a)) in
  R_ * c.

(** The specification's words: the haversine of an angle, and the
    great-circle distance [2 R asin (sqrt h)] on a sphere of radius
    6371 km, [h] the haversine of the central angle. *)
Definition hav (theta : R) : R := (1 - cos theta) / 2.

Definition deg (x : R) : R := x * PI / 180.

Definition greatCircleKm (lat1 lon1 lat2 lon2 : R) : R :=
  let h := hav (deg lat2 - deg lat1) +
           cos (deg lat1) * cos (deg lat2) * hav (deg lon2 - deg lon1) in
  2 * 6371 * asin (sqrt h).

Definition validLatitude (lat : R) : Prop := -90 <= lat <= 90.

End Geofence.

(** ** The distance in the arithmetic of the program *)

(** A JavaScript [number] is an IEEE 754 binary64 value: [+], [-], [*]
    and [/] are the correctly rounded operations of [PrimFloat], and so
    is [Math.sqrt] as the engines compute it; a decimal literal is the
    nearest double.  The language leaves the values of [Math.sin],
    [Math.cos] and [Math.atan2] to the platform, so they are a
    parameter. *)
Module Double.

Record MathLib := {
  sin : float -> float;
  cos : float -> float;
  atan2 : float -> float -> float
}.

(** [Math.PI], the double nearest to the number. *)
Definition PI : float := 3.141592653589793%float.

(** The quantity [a] of [calculateDistance], operation by operation;
    [*] and [/] associate to the left. *)
Definition haversine_a (Math : MathLib) (lat1 lon1 lat2 lon2 : float) : float :=
  let dLat := ((lat2 - lat1) * PI / 180)%float in
  let dLon := ((lon2 - lon1) * PI / 180)%float in
  (sin Math (dLat / 2) * sin Math (dLat / 2) +
   cos Math (lat1 * PI / 180) * cos Math (lat2 * PI / 180) *
   sin Math (dLon / 2) * sin Math (dLon / 2))%float.

(** [calculateDistance], [App.tsx] lines 811-821. *)
Definition calculateDistance (Math : MathLib)
  (lat1 lon1 lat2 lon2 : float) : float :=
  let R := 6371%float in
  let a := haversine_a Math lat1 lon1 lat2 lon2 in
  let c := (2 * atan2 Math (PrimFloat.sqrt a) (PrimFloat.sqrt (1 - a)))%float in
  (R * c)%float.



(** A library given by its values at some arguments.  Each listed value
    is the double nearest to the exact sine, cosine or arc tangent of
    the listed argument, the value a library that rounds correctly
    returns there.  Elsewhere the functions are continued by the first
    term of their series; no statement below evaluates them there. *)
Fixpoint oddTable (points : list (float * float)) (x : float) : float :=
  match points with
  | [] => x
  | (k, v) :: rest =>
      if (x =? k)%float then v
      else if (x =? - k)%float then (- v)%float
      else oddTable rest x
  end.

Fixpoint evenTable (points : list (float * float)) (x : float) : float :=
  match points with
  | [] => 1%float
  | (k, v) :: rest =>
      if (abs x =? k)%float then v else evenTable rest x
  end.

Fixpoint atan2Table (points : list (float * float * float)) (y x : float) : float :=
  match points with
  | [] => (y / x)%float
  | (ky, kx, v) :: rest =>
      if ((y =? ky) && (x =? kx))%float then v else atan2Table rest y x
  end.

(** The sines of the half angles of the examples: of half the
    difference of the latitudes 12.55 and -12.55, of a quarter turn,
    and of the half differences between the reference points
    (10.85, 78.72), (10.8155, 78.9047) and the centre. *)
Definition sinPoints : list (float * float) :=
  [ (0.21903882112528836, 0.2172915104057915);
    (1.5707963267948966, 1);
    (0.00030106929596901774, 0.0003010692914207277);
    (0.00013351768777753408, 0.0001335176873808314);
    (0.001745329251994354, 0.0017453283658983333) ]%float.

(** The cosines of the latitudes 12.55, 10.85 and 10.8155, in radians. *)
Definition cosPoints : list (float * float) :=
  [ (0.21903882112528836, 0.9761067562032187);
    (0.18936822384138477, 0.9821233556773956);
    (0.1887660852494467, 0.9822365232613959) ]%float.

(** The two arc tangents of the reference points. *)
Definition atan2Points : list (float * float * float) :=
  [ (0.00032839000683516375, 0.9999999460800002, 0.0003283900127374269);
    (0.0017143252660694723, 0.9999985305433614, 0.0017143261057788468) ]%float.

(** [Math.atan2] is [NaN] when an argument is, as the language requires. *)
Definition tabulated : MathLib := {|
  sin := oddTable sinPoints;
  cos := evenTable cosPoints;
  atan2 y x :=
    if is_nan y || is_nan x then nan else atan2Table atan2Points y x
|}.

End Double.

(** ** Data model *)

(** [type Screen = 'checking' | 'blocked' | 'splash' | ...] *)
Module Screen.
Inductive t :=
| checking | blocked | splash | onboarding
| map | destination | providers | confirmation.
End Screen.

(** [interface Hotspot] *)
Module Hotspot.
Record t := {
  id : Z;
  name : string;
  latitude : R;
  longitude : R;
  provider_count : Z;
  status : string
}.
End Hotspot.

(** [interface Provider]; [current_route] is optional. *)
Module Provider.
Record place := { lat : R; lng : R; place_name : string }.
Record route := { pickup : place; drop : place }.
Record t := {
  id : string;
  name : string;
  vehicle_number : string;
  latitude : R;
  longitude : R;
  seats_available : Z;
  rating : R;
  is_online : bool;
  current_route : option route
}.
End Provider.

(** An error object: a [GeolocationPositionError], the [error] of a
    backing-store answer, or the reason of a rejected promise. *)
Module Error.
Record t := { message : string; code : Z }.
End Error.

(** What is passed to [console.log] and [console.error]. *)
Inductive Value :=
| Str (s : string)
| Num (x : R)
| Err (e : Error.t).

(** The effects a handler has on the browser and on the backing store,
    in the order they happen.  [SetLoading] records a call of the
    [loading] setter. *)
Inductive Effect :=
| ConsoleLog (args : list Value)
| ConsoleError (args : list Value)
| SetItem (key value : string)
| RemoveItem (key : string)
| GetCurrentPosition
| SetInterval (id : nat)
| ClearInterval (id : nat)
| SetLoading (value : bool)
| DbUpdate (id : string) (latitude longitude : R).

(** The answer to an awaited backing-store query: the promise resolves
    to [{ data, error }] or rejects. *)
Inductive Response (A : Type) :=
| Resolved (data : option A) (error : option Error.t)
| Rejected (reason : Error.t).
Arguments Resolved {A} data error.
Arguments Rejected {A} reason.

(** The outcome of [navigator.geolocation.getCurrentPosition]. *)
Inductive GeoOutcome :=
| Position (latitude longitude : R)
| PositionError (error : Error.t).

(** What does not change during a session: [urlParams.get('demo')] and
    ['geolocation' in navigator]. *)
Record Env := {
  demoParam : option string;
  geolocationSupported : bool
}.

(** The state of the component [App] (second variant) and of the browser
    around it.
    - [currentScreen] ... [locationChecked]: the [useState] cells
      ([userLocation] only feeds the map widget and is left out);
    - [movementInterval]: the [useRef] cell;
    - [providersVersion]: the identity of the array held in [providers]
      (every [setProviders] installs a new array);
    - [movementDeps], [movementCleanup]: what React remembers of the
      last run of the movement effect: its dependencies, and whether it
      returned a cleanup function;
    - [localStorage]; [geoPending], the geolocation requests in flight;
      [timers], the interval timers that are active; [nextTimer], the
      next timer id ([setInterval] returns positive ids);
    - [trace]: the effects so far. *)
Record State := {
  currentScreen : Screen.t;
  hotspots : list Hotspot.t;
  providers : list Provider.t;
  selectedProvider : option Provider.t;
  loading : bool;
  showProviderMovement : bool;
  demoMode : bool;
  locationChecked : bool;
  movementInterval : option nat;
  providersVersion : nat;
  movementDeps : option (bool * nat);
  movementCleanup : bool;
  localStorage : gmap string string;
  geoPending : nat;
  timers : list nat;
  nextTimer : nat;
  trace : list Effect
}.

Definition set_currentScreen (v : Screen.t) (s : State) : State :=
  Build_State v (hotspots s) (providers s) (selectedProvider s) (loading s)
    (showProviderMovement s) (demoMode s) (locationChecked s)
    (movementInterval s) (providersVersion s) (movementDeps s)
    (movementCleanup s) (localStorage s) (geoPending s) (timers s)
    (nextTimer s) (trace s).

Definition set_hotspots (v : list Hotspot.t) (s : State) : State :=
  Build_State (currentScreen s) v (providers s) (selectedProvider s)
    (loading s) (showProviderMovement s) (demoMode s) (locationChecked s)
    (movementInterval s) (providersVersion s) (movementDeps s)
    (movementCleanup s) (localStorage s) (geoPending s) (timers s)
    (nextTimer s) (trace s).

Definition set_providers (v : list Provider.t) (s : State) : State :=
  Build_State (currentScreen s) (hotspots s) v (selectedProvider s) (loading
    s) (showProviderMovement s) (demoMode s) (locationChecked s)
    (movementInterval s) (providersVersion s) (movementDeps s)
    (movementCleanup s) (localStorage s) (geoPending s) (timers s)
    (nextTimer s) (trace s).

Definition set_selectedProvider (v : option Provider.t) (s : State) : State :=
  Build_State (currentScreen s) (hotspots s) (providers s) v (loading s)
    (showProviderMovement s) (demoMode s) (locationChecked s)
    (movementInterval s) (providersVersion s) (movementDeps s)
    (movementCleanup s) (localStorage s) (geoPending s) (timers s)
    (nextTimer s) (trace s).

Definition set_loading (v : bool) (s : State) : State :=
  Build_State (currentScreen s) (hotspots s) (providers s) (selectedProvider
    s) v (showProviderMovement s) (demoMode s) (locationChecked s)
    (movementInterval s) (providersVersion s) (movementDeps s)
    (movementCleanup s) (localStorage s) (geoPending s) (timers s)
    (nextTimer s) (trace s).

Definition set_showProviderMovement (v : bool) (s : State) : State :=
  Build_State (currentScreen s) (hotspots s) (providers s) (selectedProvider
    s) (loading s) v (demoMode s) (locationChecked s) (movementInterval s)
    (providersVersion s) (movementDeps s) (movementCleanup s) (localStorage
    s) (geoPending s) (timers s) (nextTimer s) (trace s).

Definition set_demoMode (v : bool) (s : State) : State :=
  Build_State (currentScreen s) (hotspots s) (providers s) (selectedProvider
    s) (loading s) (showProviderMovement s) v (locationChecked s)
    (movementInterval s) (providersVersion s) (movementDeps s)
    (movementCleanup s) (localStorage s) (geoPending s) (timers s)
    (nextTimer s) (trace s).

Definition set_locationChecked (v : bool) (s : State) : State :=
  Build_State (currentScreen s) (hotspots s) (providers s) (selectedProvider
    s) (loading s) (showProviderMovement s) (demoMode s) v (movementInterval
    s) (providersVersion s) (movementDeps s) (movementCleanup s)
    (localStorage s) (geoPending s) (timers s) (nextTimer s) (trace s).

Definition set_movementInterval (v : option nat) (s : State) : State :=
  Build_State (currentScreen s) (hotspots s) (providers s) (selectedProvider
    s) (loading s) (showProviderMovement s) (demoMode s) (locationChecked s)
    v (providersVersion s) (movementDeps s) (movementCleanup s)
    (localStorage s) (geoPending s) (timers s) (nextTimer s) (trace s).

Definition set_providersVersion (v : nat) (s : State) : State :=
  Build_State (currentScreen s) (hotspots s) (providers s) (selectedProvider
    s) (loading s) (showProviderMovement s) (demoMode s) (locationChecked s)
    (movementInterval s) v (movementDeps s) (movementCleanup s)
    (localStorage s) (geoPending s) (timers s) (nextTimer s) (trace s).

Definition set_movementDeps (v : option (bool * nat)) (s : State) : State :=
  Build_State (currentScreen s) (hotspots s) (providers s) (selectedProvider
    s) (loading s) (showProviderMovement s) (demoMode s) (locationChecked s)
    (movementInterval s) (providersVersion s) v (movementCleanup s)
    (localStorage s) (geoPending s) (timers s) (nextTimer s) (trace s).

Definition set_movementCleanup (v : bool) (s : State) : State :=
  Build_State (currentScreen s) (hotspots s) (providers s) (selectedProvider
    s) (loading s) (showProviderMovement s) (demoMode s) (locationChecked s)
    (movementInterval s) (providersVersion s) (movementDeps s) v
    (localStorage s) (geoPending s) (timers s) (nextTimer s) (trace s).

Definition set_localStorage (v : gmap string string) (s : State) : State :=
  Build_State (currentScreen s) (hotspots s) (providers s) (selectedProvider
    s) (loading s) (showProviderMovement s) (demoMode s) (locationChecked s)
    (movementInterval s) (providersVersion s) (movementDeps s)
    (movementCleanup s) v (geoPending s) (timers s) (nextTimer s) (trace s).

Definition set_geoPending (v : nat) (s : State) : State :=
  Build_State (currentScreen s) (hotspots s) (providers s) (selectedProvider
    s) (loading s) (showProviderMovement s) (demoMode s) (locationChecked s)
    (movementInterval s) (providersVersion s) (movementDeps s)
    (movementCleanup s) (localStorage s) v (timers s) (nextTimer s) (trace
    s).

Definition set_timers (v : list nat) (s : State) : State :=
  Build_State (currentScreen s) (hotspots s) (providers s) (selectedProvider
    s) (loading s) (showProviderMovement s) (demoMode s) (locationChecked s)
    (movementInterval s) (providersVersion s) (movementDeps s)
    (movementCleanup s) (localStorage s) (geoPending s) v (nextTimer s)
    (trace s).

Definition set_nextTimer (v : nat) (s : State) : State :=
  Build_State (currentScreen s) (hotspots s) (providers s) (selectedProvider
    s) (loading s) (showProviderMovement s) (demoMode s) (locationChecked s)
    (movementInterval s) (providersVersion s) (movementDeps s)
    (movementCleanup s) (localStorage s) (geoPending s) (timers s) v (trace
    s).

Definition set_trace (v : list Effect) (s : State) : State :=
  Build_State (currentScreen s) (hotspots s) (providers s) (selectedProvider
    s) (loading s) (showProviderMovement s) (demoMode s) (locationChecked s)
    (movementInterval s) (providersVersion s) (movementDeps s)
    (movementCleanup s) (localStorage s) (geoPending s) (timers s)
    (nextTimer s) v.

(** The state at launch, over what [localStorage] holds. *)
Definition initialState (storage : gmap string string) : State := {|
  currentScreen := Screen.checking;
  hotspots := [];
  providers := [];
  selectedProvider := None;
  loading := true;
  showProviderMovement := false;
  demoMode := false;
  locationChecked := false;
  movementInterval := None;
  providersVersion := 0;
  movementDeps := None;
  movementCleanup := false;
  localStorage := storage;
  geoPending := 0;
  timers := [];
  nextTimer := 1;
  trace := []
|}.

(** The access state of the specification, read off the component. *)
Inductive AccessState :=
| Checking
| Blocked
| Granted (demo : bool).

Definition accessState (s : State) : AccessState :=
  match currentScreen s with
  | Screen.checking => Checking
  | Screen.blocked => Blocked
  | _ => Granted (demoMode s)
  end.

(** ** Handlers as state transformers that may throw *)

Inductive Completion (A : Type) :=
| Normal (a : A)
| Throw (e : Error.t).
Arguments Normal {A} a.
Arguments Throw {A} e.

Definition Js (A : Type) : Type := State -> State * Completion A.

#[export] Instance Js_ret : MRet Js := fun A a s => (s, Normal a).

#[export] Instance Js_bind : MBind Js := fun A B f m s =>
  match m s with
  | (s', Normal a) => f a s'
  | (s', Throw e) => (s', Throw e)
  end.

Definition throw {A : Type} (e : Error.t) : Js A := fun s => (s, Throw e).

Definition gets {A : Type} (f : State -> A) : Js A := fun s => (s, Normal (f s)).

Definition modify (f : State -> State) : Js unit := fun s => (f s, Normal tt).

(** [try { body } catch (error) { handler }] *)
Definition tryCatch {A : Type} (body : Js A) (handler : Error.t -> Js A) : Js A :=
  fun s =>
    match body s with
    | (s', Throw e) => handler e s'
    | r => r
    end.

(** [try { body } finally { finalizer }] *)
Definition finally {A : Type} (body : Js A) (finalizer : Js unit) : Js A :=
  fun s =>
    match body s with
    | (s', c) =>
        match finalizer s' with
        | (s'', Normal _) => (s'', c)
        | (s'', Throw e) => (s'', Throw e)
        end
    end.

(** [for (const x of xs) { body }], the body told the position of [x]. *)
Fixpoint forOf {A : Type} (xs : list A) (i : nat) (body : nat -> A -> Js unit)
  : Js unit :=
  match xs with
  | [] => mret tt
  | x :: xs' => body i x;; forOf xs' (S i) body
  end.

(** [await]: a resolved promise gives its value, a rejected one throws. *)
Definition await {A : Type} (r : Response A) : Js (option A * option Error.t) :=
  match r with
  | Resolved data error => mret (data, error)
  | Rejected reason => throw reason
  end.

(** The state a handler leaves; an exception that escapes a handler is
    reported by the browser and changes nothing more. *)
Definition exec (m : Js unit) (s : State) : State := fst (m s).

(** ** The browser *)

Definition emit (e : Effect) : Js unit :=
  modify (fun s => set_trace (trace s ++ [e]) s).

Definition console_log (args : list Value) : Js unit := emit (ConsoleLog args).

Definition console_error (args : list Value) : Js unit := emit (ConsoleError args).

Definition localStorage_getItem (key : string) : Js (option string) :=
  gets (fun s => localStorage s !! key).

Definition localStorage_setItem (key value : string) : Js unit :=
  modify (fun s => set_localStorage (<[key := value]> (localStorage s)) s);;
  emit (SetItem key value).

Definition localStorage_removeItem (key : string) : Js unit :=
  modify (fun s => set_localStorage (delete key (localStorage s)) s);;
  emit (RemoveItem key).

(** [navigator.geolocation.getCurrentPosition(success, error, options)]:
    one more request in flight. *)
Definition getCurrentPosition : Js unit :=
  modify (fun s => set_geoPending (S (geoPending s)) s);;
  emit GetCurrentPosition.

Definition setInterval : Js nat :=
  id ← gets nextTimer;
  modify (fun s => set_timers (id :: timers s) (set_nextTimer (S id) s));;
  emit (SetInterval id);;
  mret id.

Definition clearInterval (id : nat) : Js unit :=
  modify (fun s => set_timers (filter (fun x => x ≠ id) (timers s)) s);;
  emit (ClearInterval id).

(** ** The [useState] setters *)

Definition setCurrentScreen (v : Screen.t) : Js unit := modify (set_currentScreen v).

Definition setHotspots (v : list Hotspot.t) : Js unit := modify (set_hotspots v).

Definition setProviders (v : list Provider.t) : Js unit :=
  modify (fun s => set_providers v (set_providersVersion (S (providersVersion s)) s)).

Definition setSelectedProvider (v : option Provider.t) : Js unit :=
  modify (set_selectedProvider v).

Definition setLoading (v : bool) : Js unit :=
  modify (set_loading v);; emit (SetLoading v).

Definition setShowProviderMovement (v : bool) : Js unit :=
  modify (set_showProviderMovement v).

Definition setDemoMode (v : bool) : Js unit := modify (set_demoMode v).

Definition setLocationChecked (v : bool) : Js unit := modify (set_locationChecked v).

(** ** The component [App], second variant ([App.tsx] lines 765-1032) *)

Section Handlers.
Local Open Scope R_scope.

(** The success callback of [checkLocation]. *)
Definition onPosition (latitude longitude : R) : Js unit :=
  console_log [Str "Got location:"; Num latitude; Num longitude];;
  let distance :=
    calculateDistance latitude longitude TRICHY_CENTER_lat TRICHY_CENTER_lng in
  console_log [Str "Distance from Trichy center:"; Num distance; Str "km"];;
  if Rle_dec distance TRICHY_RADIUS_KM then
    console_log [Str "User is in Trichy! Granting access."];;
    setLocationChecked true;;
    setCurrentScreen Screen.splash
  else
    console_log [Str "User is outside Trichy service area."];;
    setLocationChecked true;;
    setCurrentScreen Screen.blocked.

(** The error callback of [checkLocation]. *)
Definition onPositionError (error : Error.t) : Js unit :=
  console_error [Str "Location error:"; Str (Error.message error)];;
  console_log [Str "Error code:"; Num (IZR (Error.code error))];;
  setLocationChecked true;;
  setCurrentScreen Screen.blocked.

(** [checkLocation], lines 824-891. *)
Definition checkLocation (env : Env) : Js unit :=
  let demoParam := demoParam env in
  saved ← localStorage_getItem "jammDemoMode";
  let savedDemoMode := bool_decide (saved = Some "true") in
  if bool_decide (demoParam = Some "true") || savedDemoMode then
    (if bool_decide (demoParam = Some "true")
     then localStorage_setItem "jammDemoMode" "true"
     else mret tt);;
    setDemoMode true;;
    setLocationChecked true;;
    setCurrentScreen Screen.splash
  else if geolocationSupported env then
    console_log [Str "Requesting location permission..."];;
    getCurrentPosition
  else
    console_error [Str "Geolocation not supported"];;
    setLocationChecked true;;
    setCurrentScreen Screen.blocked.

(** The browser answers a request in flight by one of the callbacks. *)
Definition deliver (o : GeoOutcome) : Js unit :=
  pending ← gets geoPending;
  match pending with
  | O => mret tt
  | S k =>
      modify (set_geoPending k);;
      match o with
      | Position latitude longitude => onPosition latitude longitude
      | PositionError error => onPositionError error
      end
  end.

(** [fetchHotspots], lines 944-957. *)
Definition fetchHotspots (response : Response (list Hotspot.t)) : Js unit :=
  finally
    (tryCatch
       ('(data, error) ← await response;
        (if error is Some e then throw e else mret tt);;
        (if data is Some d then setHotspots d else mret tt))
       (fun error => console_error [Str "Error fetching hotspots:"; Err error]))
    (setLoading false).

(** [fetchProviders], lines 959-971. *)
Definition fetchProviders (response : Response (list Provider.t)) : Js unit :=
  tryCatch
    ('(data, error) ← await response;
     (if error is Some e then throw e else mret tt);;
     (if data is Some d then setProviders d else mret tt))
    (fun error => console_error [Str "Error fetching providers:"; Err error]).

(** What the backing store answers to
    [update({ latitude, longitude }).eq('id', id)]. *)
Definition DbWrite : Type := string -> R -> R -> Response unit.

(** The request of the [i]-th iteration of the movement loop;
    [random] is the stream [Math.random()] draws from.  The sum is the
    exact one: the program writes its rounding to a double, which can
    lie further than 0.001 from the coordinate moved.  The statements
    about the loop take the coordinates written as they come and do not
    depend on their values. *)
Definition movedLatitude (random : nat -> R) (i : nat) (provider : Provider.t) : R :=
  let latChange := (random (2 * i)%nat - 0.5) * 0.002 in
  Provider.latitude provider + latChange.

Definition movedLongitude (random : nat -> R) (i : nat) (provider : Provider.t) : R :=
  let lngChange := (random (2 * i + 1)%nat - 0.5) * 0.002 in
  Provider.longitude provider + lngChange.

(** [simulateProviderMovement], lines 973-990: the answer of the store
    is awaited and dropped. *)
Definition simulateProviderMovement (db : DbWrite) (random : nat -> R) : Js unit :=
  tryCatch
    (ps ← gets providers;
     forOf ps 0 (fun i provider =>
       let latitude := movedLatitude random i provider in
       let longitude := movedLongitude random i provider in
       emit (DbUpdate (Provider.id provider) latitude longitude);;
       _ ← await (db (Provider.id provider) latitude longitude);
       mret tt))
    (fun error => console_error [Str "Error simulating movement:"; Err error]).

(** [goToScreen], lines 999-1006. *)
Definition goToScreen (screen : Screen.t) : Js unit :=
  match screen with
  | Screen.map => setShowProviderMovement true
  | _ => setShowProviderMovement false
  end;;
  setCurrentScreen screen.

(** [bookRide], lines 1008-1011. *)
Definition bookRide (provider : Provider.t) : Js unit :=
  setSelectedProvider (Some provider);;
  setCurrentScreen Screen.confirmation.

(** [getHotspotColor], lines 1013-1020 (and 209-216). *)
Definition getHotspotColor (status : string) : string :=
  if String.eqb status "high" then "#4caf50"
  else if String.eqb status "medium" then "#ff9800"
  else if String.eqb status "low" then "#f44336"
  else "#999".

(** [enableDemoMode], lines 1022-1026. *)
Definition enableDemoMode : Js unit :=
  localStorage_setItem "jammDemoMode" "true";;
  setDemoMode true;;
  setCurrentScreen Screen.splash.

(** [exitDemoMode], lines 1028-1032. *)
Definition exitDemoMode (env : Env) : Js unit :=
  localStorage_removeItem "jammDemoMode";;
  setDemoMode false;;
  checkLocation env.

(** The splash timer, lines 992-997: it is cleared when the screen
    changes, so its callback runs on the splash screen only. *)
Definition splashTimer : Js unit :=
  screen ← gets currentScreen;
  match screen with
  | Screen.splash => setCurrentScreen Screen.onboarding
  | _ => mret tt
  end.

(** The cleanup function of the movement effect, lines 936-940. *)
Definition movementEffectCleanup : Js unit :=
  current ← gets movementInterval;
  match current with
  | Some id => if bool_decide (id = 0%nat) then mret tt else clearInterval id
  | None => mret tt
  end.

(** The movement effect, lines 930-942, as React runs it after a
    render: not at all when its dependencies
    [[showProviderMovement, providers]] are those of its last run,
    otherwise the cleanup of the last run first, then the body. *)
Definition movementEffect : Js unit :=
  show ← gets showProviderMovement;
  version ← gets providersVersion;
  last ← gets movementDeps;
  if bool_decide (last = Some (show, version)) then mret tt
  else
    registered ← gets movementCleanup;
    (if (registered : bool) then movementEffectCleanup else mret tt);;
    modify (set_movementDeps (Some (show, version)));;
    ps ← gets providers;
    if show && (0 <? length ps)%nat then
      id ← setInterval;
      modify (set_movementInterval (Some id));;
      modify (set_movementCleanup true)
    else
      modify (set_movementCleanup false).
End Handlers.

(** ** The first variant ([App.tsx] lines 79-216), where it differs *)

Module V1.
(** [simulateProviderMovement], lines 165-185: the [error] of the answer
    is thrown. *)
Definition simulateProviderMovement (db : DbWrite) (random : nat -> R) : Js unit :=
  tryCatch
    (ps ← gets providers;
     forOf ps 0 (fun i provider =>
       let latitude := movedLatitude random i provider in
       let longitude := movedLongitude random i provider in
       emit (DbUpdate (Provider.id provider) latitude longitude);;
       '(_, error) ← await (db (Provider.id provider) latitude longitude);
       if error is Some e then throw e else mret tt))
    (fun error => console_error [Str "Error simulating movement:"; Err error]).
End V1.

(** ** Events *)

(** The arguments [goToScreen] is called with in the rendered screens. *)
Inductive NavTarget := ToMap | ToDestination | ToProviders.

Definition screenOf (target : NavTarget) : Screen.t :=
  match target with
  | ToMap => Screen.map
  | ToDestination => Screen.destination
  | ToProviders => Screen.providers
  end.

(** What can happen to the component: the mount effect, an answer of the
    geolocation provider, the splash timer, the buttons, the answers to
    the two fetches, and a tick of the movement timer. *)
Inductive Event :=
| Mount
| Geo (o : GeoOutcome)
| SplashTimer
| Navigate (target : NavTarget)
| BookRide (provider : Provider.t)
| EnableDemo
| ExitDemo
| HotspotsResponse (r : Response (list Hotspot.t))
| ProvidersResponse (r : Response (list Provider.t))
| MovementTick (db : DbWrite) (random : nat -> R).

Definition handle (env : Env) (e : Event) : Js unit :=
  match e with
  | Mount => checkLocation env
  | Geo o => deliver o
  | SplashTimer => splashTimer
  | Navigate target => goToScreen (screenOf target)
  | BookRide provider => bookRide provider
  | EnableDemo => enableDemoMode
  | ExitDemo => exitDemoMode env
  | HotspotsResponse r => fetchHotspots r
  | ProvidersResponse r => fetchProviders r
  | MovementTick db random =>
      active ← gets timers;
      if active is [] then mret tt else simulateProviderMovement db random
  end.

(** One event: its handler, then the render and the effects. *)
Definition step (env : Env) (s : State) (e : Event) : State :=
  exec movementEffect (exec (handle env e) s).

Definition run (env : Env) (events : list Event) (s : State) : State :=
  fold_left (step env) events s.

(** The controls the rendered screen offers, and the callbacks that can
    arrive, in a state. *)
Definition onScreen (s : State) (screens : list Screen.t) : bool :=
  existsb
    (fun x =>
       match x, currentScreen s with
       | Screen.checking, Screen.checking | Screen.blocked, Screen.blocked
       | Screen.splash, Screen.splash | Screen.onboarding, Screen.onboarding
       | Screen.map, Screen.map | Screen.destination, Screen.destination
       | Screen.providers, Screen.providers
       | Screen.confirmation, Screen.confirmation => true
       | _, _ => false
       end)
    screens.

Definition offered (s : State) (e : Event) : bool :=
  match e with
  | Mount => onScreen s [Screen.checking] && negb (locationChecked s)
  | Geo _ => (0 <? geoPending s)%nat
  | SplashTimer => onScreen s [Screen.splash]
  | Navigate ToMap =>
      onScreen s [Screen.onboarding; Screen.destination; Screen.confirmation]
  | Navigate ToDestination => onScreen s [Screen.map; Screen.providers]
  | Navigate ToProviders => onScreen s [Screen.map; Screen.destination]
  | BookRide provider =>
      onScreen s [Screen.map; Screen.providers]
      && existsb (String.eqb (Provider.id provider)) (List.map Provider.id (providers s))
  | EnableDemo => onScreen s [Screen.blocked]
  | ExitDemo =>
      demoMode s && negb (onScreen s [Screen.checking; Screen.blocked])
  | HotspotsResponse _ | ProvidersResponse _ =>
      locationChecked s && negb (onScreen s [Screen.blocked])
  | MovementTick _ _ => if timers s is [] then false else true
  end.

(** A sequence of events the user and the environment can produce. *)
Fixpoint feasible (env : Env) (events : list Event) (s : State) : bool :=
  match events with
  | [] => true
  | e :: events' => offered s e && feasible env events' (step env s e)
  end.

(** ** Vocabulary of the statements *)

(** The effects a computation adds to the trace of a state. *)
Definition effectsOf {A : Type} (m : Js A) (s : State) : list Effect :=
  drop (length (trace s)) (trace (fst (m s))).

(** The error of a failed answer, if it is one. *)
Definition failure {A : Type} (r : Response A) : option Error.t :=
  match r with
  | Resolved _ error => error
  | Rejected reason => Some reason
  end.

(** The calls of the [loading] setter among some effects. *)
Definition loadingCalls (effects : list Effect) : list bool :=
  omap (fun e => if e is SetLoading v then Some v else None) effects.

(** The errors logged among some effects. *)
Definition errorsLogged (effects : list Effect) : list (list Value) :=
  omap (fun e => if e is ConsoleError args then Some args else None) effects.

(** The writes sent to the backing store among some effects. *)
Definition writesSent (effects : list Effect) : list string :=
  omap (fun e => if e is DbUpdate id _ _ then Some id else None) effects.

(** The provider of the last [BookRide] of a sequence of events. *)
Definition lastBooked (events : list Event) : option Provider.t :=
  last (omap (fun e => if e is BookRide p then Some p else None) events).

(** Sample data. *)
Definition demoEnv : Env :=
  {| demoParam := Some "true"; geolocationSupported := true |}.

Definition plainEnv : Env :=
  {| demoParam := None; geolocationSupported := true |}.


Definition ravi : Provider.t := {|
  Provider.id := "p1";
  Provider.name := "Ravi";
  Provider.vehicle_number := "TN45 AB 1234";
  Provider.latitude := 10.81;
  Provider.longitude := 78.70;
  Provider.seats_available := 3;
  Provider.rating := 4.5;
  Provider.is_online := true;
  Provider.current_route := None
|}.

Definition kumar : Provider.t := {|
  Provider.id := "p2";
  Provider.name := "Kumar";
  Provider.vehicle_number := "TN45 CD 5678";
  Provider.latitude := 10.82;
  Provider.longitude := 78.69;
  Provider.seats_available := 2;
  Provider.rating := 4.8;
  Provider.is_online := true;
  Provider.current_route := None
|}.

Definition networkError : Error.t :=
  {| Error.message := "Failed to fetch"; Error.code := 0 |}.

Definition permissionDenied : Error.t :=
  {| Error.message := "User denied Geolocation"; Error.code := 1 |}.

(** The requests of a tick of the movement timer, from position [i]. *)
Fixpoint requestsFrom (random : nat -> R) (i : nat) (ps : list Provider.t)
  : list (string * R * R) :=
  match ps with
  | [] => []
  | p :: ps' =>
      (Provider.id p, movedLatitude random i p, movedLongitude random i p)
      :: requestsFrom random (S i) ps'
  end.

Definition answer (db : DbWrite) (q : string * R * R) : Response unit :=
  db q.1.1 q.1.2 q.2.

Definition updateOf (q : string * R * R) : Effect := DbUpdate q.1.1 q.1.2 q.2.

(** The answers that end the loop: in the second variant a rejected
    promise, in the first any failure. *)
Definition rejected (r : Response unit) : bool :=
  if r is Rejected _ then true else false.

Definition failed (r : Response unit) : bool :=
  if failure r is Some _ then true else false.

(** The prefix of a list up to and including the first element at which
    [stop] holds. *)
Fixpoint takeThrough {A : Type} (stop : A -> bool) (l : list A) : list A :=
  match l with
  | [] => []
  | x :: l' => x :: (if stop x then [] else takeThrough stop l')
  end.

(** The error of the first answer at which [stop] holds. *)
Fixpoint firstError (stop : Response unit -> bool) (answers : list (Response unit))
  : option Error.t :=
  match answers with
  | [] => None
  | r :: answers' => if stop r then failure r else firstError stop answers'
  end.

Definition movementLog (error : option Error.t) : list Effect :=
  match error with
  | Some e => [ConsoleError [Str "Error simulating movement:"; Err e]]
  | None => []
  end.

(** The claim of a best-effort tick, in the specification's words: every
    provider known is written, and every failed write is logged. *)
Definition bestEffort (tick : DbWrite -> (nat -> R) -> Js unit) (db : DbWrite)
  (random : nat -> R) (s : State) : Prop :=
  let effects := effectsOf (tick db random) s in
  writesSent effects = List.map Provider.id (providers s) ∧
  length (errorsLogged effects) =
  length (filter (fun q => failed (answer db q) = true)
            (requestsFrom random 0 (providers s))).

(** A store that fails the writes of one provider. *)
Definition failingFor (id : string) (r : Response unit) : DbWrite :=
  fun id' _ _ => if String.eqb id' id then r else Resolved None None.

(** The loop bodies of the two variants of [simulateProviderMovement],
    and what a loop over [ps] from position [i] comes to. *)
Definition moveAndDrop (db : DbWrite) (random : nat -> R) (i : nat)
  (provider : Provider.t) : Js unit :=
  let latitude := movedLatitude random i provider in
  let longitude := movedLongitude random i provider in
  emit (DbUpdate (Provider.id provider) latitude longitude);;
  _ ← await (db (Provider.id provider) latitude longitude);
  mret tt.

Definition moveAndThrow (db : DbWrite) (random : nat -> R) (i : nat)
  (provider : Provider.t) : Js unit :=
  let latitude := movedLatitude random i provider in
  let longitude := movedLongitude random i provider in
  emit (DbUpdate (Provider.id provider) latitude longitude);;
  '(_, error) ← await (db (Provider.id provider) latitude longitude);
  if error is Some e then throw e else mret tt.

Definition loopResult (db : DbWrite) (random : nat -> R)
  (stop : Response unit -> bool) (i : nat)
  (ps : list Provider.t) (s : State) : State * Completion unit :=
  let qs := requestsFrom random i ps in
  (set_trace (trace s ++ List.map updateOf (takeThrough (stop ∘ answer db) qs)) s,
   match firstError stop (List.map (answer db) qs) with
   | Some e => Throw e
   | None => Normal tt
   end).


(** ** Vocabulary of the invariants *)

(** [keeps P m]: the state [m] ends in is related by [P] to the one it
    starts in, however it completes. *)
Definition keeps (P : State -> State -> Prop) {A : Type} (m : Js A) : Prop :=
  forall s, P s (fst (m s)).

(** What only the movement effect touches. *)
Definition timerView (s : State) :=
  (timers s, nextTimer s, movementInterval s, movementCleanup s, movementDeps s).

Definition sameTimers (s s' : State) : Prop := timerView s' = timerView s.

(** The movement timer is the only timer, and it is tracked: either no
    cleanup is registered and no timer is active, or the one active
    timer is the one [movementInterval] holds, a cleanup is registered,
    and the effect last ran with [showProviderMovement] set. *)
Definition timerInv (s : State) : Prop :=
  nextTimer s ≠ 0 ∧
  ((movementCleanup s = false ∧ timers s = []) ∨
   (exists id version,
      id ≠ 0 ∧ movementCleanup s = true ∧ movementInterval s = Some id ∧
      timers s = [id] ∧ movementDeps s = Some (true, version))).

(** The selection is kept and the confirmation screen is not entered. *)
Definition noEntry (s s' : State) : Prop :=
  selectedProvider s' = selectedProvider s ∧
  (currentScreen s' = Screen.confirmation -> currentScreen s = Screen.confirmation).
(** ** Vocabulary of the further properties *)

(** The durable demo flag is set. *)
Definition flagSet (s : State) : Prop :=
  localStorage s !! "jammDemoMode" = Some "true".

(** What the movement effect does not touch. *)
Definition appView (s : State) :=
  (currentScreen s, hotspots s, providers s, selectedProvider s, loading s,
   showProviderMovement s, demoMode s, locationChecked s, providersVersion s,
   localStorage s, geoPending s).

Definition sameApp (s s' : State) : Prop := appView s' = appView s.

(** The demo mode and the durable store stay as they are. *)
Definition sameDemo (s s' : State) : Prop :=
  demoMode s' = demoMode s ∧ localStorage s' = localStorage s.

(** [providers] changes only together with [providersVersion], which
    never decreases. *)
Definition providersTracked (s s' : State) : Prop :=
  providersVersion s <= providersVersion s' ∧
  (providersVersion s' = providersVersion s -> providers s' = providers s).

(** The movement effect has not run yet. *)
Definition timerFresh (s : State) : Prop :=
  movementDeps s = None ∧ timers s = [] ∧ showProviderMovement s = false.

(** The answers to fetches and the ticks of the movement timer. *)
Definition passive (e : Event) : bool :=
  match e with
  | HotspotsResponse _ | ProvidersResponse _ | MovementTick _ _ => true
  | _ => false
  end.

(** The gate stays as it is. *)
Definition sameGate (s s' : State) : Prop :=
  geoPending s' = geoPending s ∧ demoMode s' = demoMode s ∧
  currentScreen s' = currentScreen s.

(** At most one access-check request is in flight, and while one is the
    component is neither in demo mode nor blocked. *)
Definition oneInFlight (s : State) : Prop :=
  geoPending s <= 1 ∧
  (geoPending s = 1 -> demoMode s = false ∧ currentScreen s ≠ Screen.blocked).

(** The movement effect has run on the state as it is, and the timer is
    active exactly when it should. *)
Definition timerSettled (s : State) : Prop :=
  movementDeps s = Some (showProviderMovement s, providersVersion s) ∧
  (timers s ≠ [] <-> showProviderMovement s = true ∧ providers s ≠ []).

(** ** The live feed effects ([App.tsx] lines 897-927) *)

#[export] Instance Screen_eq_dec : EqDecision Screen.t.
Proof. solve_decision. Defined.

(** What the two effects do to the backing store: the two queries of the
    fetch effect, and the realtime channel opened and removed. *)
Inductive FeedEffect :=
| SelectHotspots
| SelectProviders
| Subscribe (channel : nat)
| RemoveChannel (channel : nat).

(** The component with what React and the realtime client remember of
    the two effects: the dependencies of their last run, the channel the
    registered cleanup of the subscription effect removes, the channels
    that are open, and the effects so far. *)
Record Feed := {
  app : State;
  channels : list nat;
  nextChannel : nat;
  fetchDeps : option (bool * Screen.t);
  subscriptionDeps : option Screen.t;
  subscriptionCleanup : option nat;
  feedTrace : list FeedEffect
}.

Definition initialFeed (storage : gmap string string) : Feed := {|
  app := initialState storage;
  channels := [];
  nextChannel := 1;
  fetchDeps := None;
  subscriptionDeps := None;
  subscriptionCleanup := None;
  feedTrace := []
|}.

(** The fetch effect, lines 898-903, dependencies
    [[locationChecked, currentScreen]]. *)
Definition fetchEffect (f : Feed) : Feed :=
  let checked := locationChecked (app f) in
  let screen := currentScreen (app f) in
  if bool_decide (fetchDeps f = Some (checked, screen)) then f
  else {|
    app := app f;
    channels := channels f;
    nextChannel := nextChannel f;
    fetchDeps := Some (checked, screen);
    subscriptionDeps := subscriptionDeps f;
    subscriptionCleanup := subscriptionCleanup f;
    feedTrace :=
      if checked && negb (bool_decide (screen = Screen.blocked))
      then feedTrace f ++ [SelectHotspots; SelectProviders]
      else feedTrace f
  |}.

(** [supabase.removeChannel(channel)] *)
Definition removeChannel (channel : nat) (f : Feed) : Feed := {|
  app := app f;
  channels := filter (fun c => c ≠ channel) (channels f);
  nextChannel := nextChannel f;
  fetchDeps := fetchDeps f;
  subscriptionDeps := subscriptionDeps f;
  subscriptionCleanup := subscriptionCleanup f;
  feedTrace := feedTrace f ++ [RemoveChannel channel]
|}.

(** The subscription effect, lines 906-927, dependencies
    [[currentScreen]].  React runs an effect whose dependencies changed
    in two phases of the commit: the cleanup its last run returned,
    before the body of any effect of the commit, and its body in the
    order of the effects.  The cleanup removes the channel the last run
    opened. *)
Definition subscriptionEffectCleanup (f : Feed) : Feed :=
  let screen := currentScreen (app f) in
  if bool_decide (subscriptionDeps f = Some screen) then f
  else
    match subscriptionCleanup f with
    | Some channel => removeChannel channel f
    | None => f
    end.

(** The body returns early, and without a cleanup, on the blocked and
    the checking screen; otherwise it opens a channel and returns the
    cleanup that removes it. *)
Definition subscriptionEffect (f : Feed) : Feed :=
  let screen := currentScreen (app f) in
  if bool_decide (subscriptionDeps f = Some screen) then f
  else if bool_decide (screen = Screen.blocked) || bool_decide (screen = Screen.checking)
  then {|
    app := app f;
    channels := channels f;
    nextChannel := nextChannel f;
    fetchDeps := fetchDeps f;
    subscriptionDeps := Some screen;
    subscriptionCleanup := None;
    feedTrace := feedTrace f
  |}
  else {|
    app := app f;
    channels := nextChannel f :: channels f;
    nextChannel := S (nextChannel f);
    fetchDeps := fetchDeps f;
    subscriptionDeps := Some screen;
    subscriptionCleanup := Some (nextChannel f);
    feedTrace := feedTrace f ++ [Subscribe (nextChannel f)]
  |}.

(** The effects of one commit: the cleanups, then the bodies, the fetch
    effect before the subscription effect as the component declares
    them. *)
Definition commitEffects (f : Feed) : Feed :=
  subscriptionEffect (fetchEffect (subscriptionEffectCleanup f)).

Definition withApp (s : State) (f : Feed) : Feed := {|
  app := s;
  channels := channels f;
  nextChannel := nextChannel f;
  fetchDeps := fetchDeps f;
  subscriptionDeps := subscriptionDeps f;
  subscriptionCleanup := subscriptionCleanup f;
  feedTrace := feedTrace f
|}.

(** The first render: the effects run on the initial state. *)
Definition feedLaunch (storage : gmap string string) : Feed :=
  commitEffects (initialFeed storage).

(** One event: the component's step, then the effects of its commit. *)
Definition feedStep (env : Env) (f : Feed) (e : Event) : Feed :=
  commitEffects (withApp (step env (app f) e) f).

Definition feedRun (env : Env) (events : list Event)
  (storage : gmap string string) : Feed :=
  fold_left (feedStep env) events (feedLaunch storage).

(** Past the gate. *)
Definition granted (s : State) : Prop :=
  currentScreen s ≠ Screen.checking ∧ currentScreen s ≠ Screen.blocked.

(** The subscription effect has run on the screen as it is: a channel is
    open, the one its cleanup removes, exactly past the gate. *)
Definition subscribed (f : Feed) : Prop :=
  subscriptionDeps f = Some (currentScreen (app f)) ∧
  ((¬ granted (app f) ∧ channels f = [] ∧ subscriptionCleanup f = None) ∨
   (granted (app f) ∧
    exists channel, channels f = [channel] ∧ subscriptionCleanup f = Some channel)).

(** The queries among some effects of the feed. *)
Definition queries (effects : list FeedEffect) : list FeedEffect :=
  omap
    (fun x =>
       match x with
       | SelectHotspots | SelectProviders => Some x
       | _ => None
       end)
    effects.

(** A location check that completed left the checking screen. *)
Definition checkedLeftChecking (s : State) : Prop :=
  locationChecked s = true -> currentScreen s ≠ Screen.checking.

(** A completed location check stays completed. *)
Definition staysChecked (s s' : State) : Prop :=
  locationChecked s = true -> locationChecked s' = true.

(** The location check and the screen stay as they are. *)
Definition sameCheck (s s' : State) : Prop :=
  locationChecked s' = locationChecked s ∧ currentScreen s' = currentScreen s.

(** ** The user's location on the map ([App.tsx] lines 774-808, 1336) *)

Module MapLocation.
(** The [userLocation] cell, the requests of [getUserLocation] in
    flight, and what was logged as an error. *)
Record t := {
  userLocation : option (R * R);
  pending : nat;
  errors : list (list Value)
}.

Definition initial : t := {| userLocation := None; pending := 0; errors := [] |}.

Definition center : R * R := (TRICHY_CENTER_lat, TRICHY_CENTER_lng).

Definition setUserLocation (v : R * R) (l : t) : t :=
  {| userLocation := Some v; pending := pending l; errors := errors l |}.

(** [getUserLocation], lines 778-801, up to the answer. *)
Definition getUserLocation (env : Env) (l : t) : t :=
  if geolocationSupported env
  then {| userLocation := userLocation l; pending := S (pending l);
          errors := errors l |}
  else setUserLocation center l.

(** The callbacks of [getUserLocation], for a request in flight. *)
Definition answered (o : GeoOutcome) (l : t) : t :=
  match pending l with
  | O => l
  | S k =>
      let l1 := {| userLocation := userLocation l; pending := k;
                   errors := errors l |} in
      match o with
      | Position latitude longitude => setUserLocation (latitude, longitude) l1
      | PositionError error =>
          setUserLocation center
            {| userLocation := userLocation l1; pending := pending l1;
               errors := errors l1 ++ [[Str "Error getting location:"; Err error]] |}
      end
  end.

(** The effect of lines 804-808, run when [currentScreen] changed. *)
Definition screenChanged (env : Env) (screen : Screen.t) (l : t) : t :=
  match screen, userLocation l with
  | Screen.map, None => getUserLocation env l
  | _, _ => l
  end.

(** [const mapCenter = userLocation || TRICHY_CENTER], line 1336. *)
Definition mapCenter (l : t) : R * R :=
  match userLocation l with
  | Some v => v
  | None => center
  end.

Inductive Event :=
| ScreenChanged (screen : Screen.t)
| LocateMe
| Answered (o : GeoOutcome).

Definition step (env : Env) (l : t) (e : Event) : t :=
  match e with
  | ScreenChanged screen => screenChanged env screen l
  | LocateMe => getUserLocation env l
  | Answered o => answered o l
  end.

Definition run (env : Env) (events : list Event) (l : t) : t :=
  fold_left (step env) events l.
End MapLocation.

(** ** [MapUpdater] of the first variant ([App.tsx] lines 64-77) *)

(** The bounds [map.fitBounds] is called with, if it is called. *)
Definition mapUpdater (providers : list Provider.t) : option (list (R * R)) :=
  if (0 <? length providers)%nat then
    let bounds :=
      List.map (fun p => (Provider.latitude p, Provider.longitude p)) providers in
    if (0 <? length bounds)%nat then Some bounds else None
  else None.

(** ** The early prototype [JammApp] ([unnamed/part_001]) *)

Module Jamm.
(** [eta: Math.floor(Math.random() * 10) + 1], line 120. *)
Definition mockEta (random : R) : Z := (Zfloor (random * 10) + 1)%Z.

(** The three seat icons of a provider card, lines 355-364: icon [i]
    is marked available when [i < provider.seatsAvailable]. *)
Definition seatIcons (seatsAvailable : Z) : list bool :=
  List.map (fun i => (i <? seatsAvailable)%Z) [0; 1; 2]%Z.

(** The position of the marker of the hotspot at [index], in percent of
    the map container, lines 207-208. *)
Definition markerTop (index : nat) : Z := (30 + Z.of_nat index * 20)%Z.

Definition markerLeft (index : nat) : Z := (40 + Z.of_nat index * 15)%Z.

(** The controls with a click handler, and the screen each is on. *)
Inductive Control :=
| Skip | Explore | Login
| SearchBar | HotspotMarker | HotspotItem
| DestinationBack | QuickAccess | PopularDestination
| ProvidersBack | ProviderCard
| TrackDriver | BookAnother.

Definition shownOn (c : Control) : string :=
  match c with
  | Skip | Explore | Login => "onboarding"
  | SearchBar | HotspotMarker | HotspotItem => "map"
  | DestinationBack | QuickAccess | PopularDestination => "destination"
  | ProvidersBack | ProviderCard => "providers"
  | TrackDriver | BookAnother => "confirmation"
  end.

(** The argument of [setCurrentScreen] in the handler; [Login] and
    [TrackDriver] only raise an alert. *)
Definition target (c : Control) : option string :=
  match c with
  | Skip | Explore => Some "map"
  | Login | TrackDriver => None
  | SearchBar => Some "destination"
  | HotspotMarker | HotspotItem => Some "providers"
  | DestinationBack => Some "map"
  | QuickAccess | PopularDestination => Some "providers"
  | ProvidersBack => Some "destination"
  | ProviderCard => Some "confirmation"
  | BookAnother => Some "map"
  end.

Inductive Event :=
| SplashTimer
| Click (c : Control).

(** [currentScreen] is a string; a control acts when its screen is the
    one rendered. *)
Definition step (screen : string) (e : Event) : string :=
  match e with
  | SplashTimer => if String.eqb screen "splash" then "onboarding" else screen
  | Click c =>
      if String.eqb screen (shownOn c)
      then match target c with Some screen' => screen' | None => screen end
      else screen
  end.

Definition run (events : list Event) : string := fold_left step events "splash".

Definition screens : list string :=
  ["splash"; "onboarding"; "map"; "destination"; "providers"; "confirmation"].

(** Splash and onboarding come first. *)
Definition intro (screen : string) : bool :=
  String.eqb screen "splash" || String.eqb screen "onboarding".
End Jamm.


(** ** Properties of the distance function *)

Section GeofenceFacts.
Local Open Scope R_scope.

Lemma hav_sin (theta : R) : hav theta = sin (theta / 2) * sin (theta / 2).
Proof.
  unfold hav.
  replace theta with (2 * (theta / 2)) at 1 by lra.
  rewrite cos_2a_sin. lra.
Qed.

Lemma haversine_a_hav (lat1 lon1 lat2 lon2 : R) :
  haversine_a lat1 lon1 lat2 lon2 =
  hav (deg lat2 - deg lat1) +
  cos (deg lat1) * cos (deg lat2) * hav (deg lon2 - deg lon1).
Proof.
  unfold haversine_a, Math.sin, Math.cos, Math.PI, deg.
  rewrite !hav_sin.
  replace ((lat2 * PI / 180 - lat1 * PI / 180) / 2)
    with ((lat2 - lat1) * PI / 180 / 2) by lra.
  replace ((lon2 * PI / 180 - lon1 * PI / 180) / 2)
    with ((lon2 - lon1) * PI / 180 / 2) by lra.
  lra.
Qed.

Lemma haversine_a_sym (lat1 lon1 lat2 lon2 : R) :
  haversine_a lat1 lon1 lat2 lon2 = haversine_a lat2 lon2 lat1 lon1.
Proof.
  unfold haversine_a, Math.sin, Math.cos, Math.PI.
  replace ((lat1 - lat2) * PI / 180 / 2)
    with (- ((lat2 - lat1) * PI / 180 / 2)) by lra.
  replace ((lon1 - lon2) * PI / 180 / 2)
    with (- ((lon2 - lon1) * PI / 180 / 2)) by lra.
  rewrite !sin_neg. ring.
Qed.

Lemma haversine_a_refl (lat lon : R) : haversine_a lat lon lat lon = 0.
Proof.
  unfold haversine_a, Math.sin, Math.cos, Math.PI.
  replace ((lat - lat) * PI / 180 / 2) with 0 by lra.
  replace ((lon - lon) * PI / 180 / 2) with 0 by lra.
  rewrite sin_0. ring.
Qed.

Lemma atan2_0_1 : Math.atan2 0 1 = 0.
Proof.
  unfold Math.atan2.
  destruct (Rlt_dec 0 1) as [_ | H]; [| lra].
  replace (0 / 1) with 0 by lra. apply atan_0.
Qed.

(** [cos x * cos y <= cos^2 ((y - x) / 2)], whatever the angles. *)
Lemma cos_cos_le (x y : R) :
  cos x * cos y <= 1 - sin ((y - x) / 2) * sin ((y - x) / 2).
Proof.
  pose proof (cos_minus y x) as Hm.
  pose proof (cos_plus y x) as Hp.
  pose proof (COS_bound (y + x)) as [_ Hb].
  pose proof (cos_2a_sin ((y - x) / 2)) as Hd.
  replace (2 * ((y - x) / 2)) with (y - x) in Hd by lra.
  lra.
Qed.

Lemma deg_valid (lat : R) :
  validLatitude lat -> - (PI / 2) <= deg lat <= PI / 2.
Proof.
  unfold validLatitude, deg. intros [Hl Hu].
  pose proof PI_RGT_0. split; nra.
Qed.

(** On valid latitudes the exact [a] lies in [[0, 1]], and neither
    square root of the real [calculateDistance] is taken of a negative
    number.  The rounded [a] of the program can exceed 1, see
    [antipodal_distance_is_nan]. *)
Lemma haversine_a_range (lat1 lon1 lat2 lon2 : R) :
  validLatitude lat1 -> validLatitude lat2 ->
  0 <= haversine_a lat1 lon1 lat2 lon2 <= 1.
Proof.
  intros H1 H2.
  apply deg_valid in H1 as [H1l H1u]. apply deg_valid in H2 as [H2l H2u].
  pose proof (cos_ge_0 _ H1l H1u) as Hc1.
  pose proof (cos_ge_0 _ H2l H2u) as Hc2.
  unfold haversine_a, Math.sin, Math.cos, Math.PI. fold (deg lat1) (deg lat2).
  pose proof (cos_cos_le (deg lat1) (deg lat2)) as Hcc.
  replace ((deg lat2 - deg lat1) / 2)
    with ((lat2 - lat1) * PI / 180 / 2) in Hcc by (unfold deg; lra).
  set (s := sin ((lat2 - lat1) * PI / 180 / 2)) in *.
  set (t := sin ((lon2 - lon1) * PI / 180 / 2)).
  set (c1 := cos (deg lat1)) in *. set (c2 := cos (deg lat2)) in *.
  assert (Ht : 0 <= t * t <= 1).
  { pose proof (SIN_bound ((lon2 - lon1) * PI / 180 / 2)) as [? ?].
    fold t in H, H0. split; nra. }
  assert (Hs : 0 <= s * s) by nra.
  assert (Hcc0 : 0 <= c1 * c2) by nra.
  split; nra.
Qed.

(** On [[0, 1]] the program's [2 atan2 (sqrt a) (sqrt (1 - a))] is the
    textbook [2 asin (sqrt a)]. *)
Lemma atan2_sqrt_asin (a : R) :
  0 <= a <= 1 ->
  Math.atan2 (Math.sqrt a) (Math.sqrt (1 - a)) = asin (sqrt a).
Proof.
  intros [Ha0 Ha1]. unfold Math.atan2, Math.sqrt, asin.
  destruct (Rle_lt_or_eq_dec _ _ Ha1) as [Hlt | Heq].
  - assert (Hq : 0 < sqrt (1 - a)) by (apply sqrt_lt_R0; lra).
    assert (Hs1 : sqrt a < 1).
    { rewrite <- sqrt_1. apply sqrt_lt_1; lra. }
    pose proof (sqrt_pos a) as Hs0.
    destruct (Rlt_dec 0 (sqrt (1 - a))) as [_ | n]; [| contradiction].
    destruct (Rle_dec (sqrt a) (-1)) as [H | _]; [lra |].
    destruct (Rle_dec 1 (sqrt a)) as [H | _]; [lra |].
    rewrite Rsqr_sqrt by lra. reflexivity.
  - subst a. replace (1 - 1) with 0 by lra. rewrite sqrt_0, sqrt_1.
    destruct (Rlt_dec 0 0) as [H | _]; [lra |].
    destruct (Rlt_dec 0 1) as [_ | H]; [| lra].
    destruct (Rle_dec 1 (-1)) as [H | _]; [lra |].
    destruct (Rle_dec 1 1) as [_ | H]; [| lra].
    reflexivity.
Qed.
End GeofenceFacts.

(** ** Numerical bounds for the two reference points *)

Section GeofenceBounds.
Local Open Scope R_scope.














End GeofenceBounds.

Section ReferencePoints.
Local Open Scope R_scope.


End ReferencePoints.

(** ** Reasoning about handlers *)

Ltac js_unfold :=
  cbv beta iota zeta delta
    [exec effectsOf mbind mret Js_bind Js_ret throw gets modify tryCatch
     finally await emit console_log console_error localStorage_getItem
     localStorage_setItem localStorage_removeItem getCurrentPosition
     setInterval clearInterval setCurrentScreen setHotspots setProviders
     setSelectedProvider setLoading setShowProviderMovement setDemoMode
     setLocationChecked onPosition onPositionError checkLocation deliver
     fetchHotspots fetchProviders goToScreen bookRide enableDemoMode
     exitDemoMode splashTimer movementEffectCleanup movementEffect
     handle step accessState fst snd].

Ltac js_fields :=
  cbn [currentScreen hotspots providers selectedProvider loading
       showProviderMovement demoMode locationChecked movementInterval
       providersVersion movementDeps movementCleanup localStorage geoPending
       timers nextTimer trace
       set_currentScreen set_hotspots set_providers set_selectedProvider
       set_loading set_showProviderMovement set_demoMode set_locationChecked
       set_movementInterval set_providersVersion set_movementDeps
       set_movementCleanup set_localStorage set_geoPending set_timers
       set_nextTimer set_trace fst snd].

Ltac js := js_unfold; js_fields.

Lemma drop_trace_app (t added : list Effect) :
  drop (length t) (t ++ added) = added.
Proof. apply drop_app_length. Qed.

(** ** Access controller *)

Lemma checkLocation_demo (env : Env) (s : State) :
  localStorage s !! "jammDemoMode" = Some "true" ∨ demoParam env = Some "true" ->
  checkLocation env s =
  (let s1 :=
     if bool_decide (demoParam env = Some "true")
     then set_trace (trace s ++ [SetItem "jammDemoMode" "true"])
            (set_localStorage (<["jammDemoMode" := "true"]> (localStorage s)) s)
     else s in
   set_currentScreen Screen.splash
     (set_locationChecked true (set_demoMode true s1)), Normal tt).
Proof.
  intros H. js.
  destruct (bool_decide (demoParam env = Some "true")) eqn:Hp; cbn [orb].
  - js. reflexivity.
  - apply bool_decide_eq_false in Hp. destruct H as [H | H]; [| contradiction].
    rewrite bool_decide_eq_true_2 by assumption. js. reflexivity.
Qed.

(** C2.  When the durable demo flag is set or the URL parameter requests
    demo mode, [checkLocation] grants access in demo mode, completes
    normally, issues no geolocation request (none is added to the trace,
    none is in flight that was not before), and leaves the demo flag set
    in [localStorage]. *)
Theorem demo_grants_without_geolocation (env : Env) (s : State) :
  localStorage s !! "jammDemoMode" = Some "true" ∨ demoParam env = Some "true" ->
  let s' := exec (checkLocation env) s in
  accessState s' = Granted true ∧
  snd (checkLocation env s) = Normal tt ∧
  (GetCurrentPosition ∉ effectsOf (checkLocation env) s) ∧
  geoPending s' = geoPending s ∧
  localStorage s' !! "jammDemoMode" = Some "true".
Proof.
  intros H. cbv zeta. unfold exec, effectsOf.
  rewrite (checkLocation_demo env s H). cbv zeta.
  destruct (bool_decide (demoParam env = Some "true")) eqn:Hp; js.
  - rewrite drop_trace_app, lookup_insert_eq.
    repeat split; try reflexivity.
    intros Hin. apply list_elem_of_singleton in Hin. discriminate.
  - rewrite drop_all.
    apply bool_decide_eq_false in Hp. destruct H as [H | H]; [| contradiction].
    repeat split; try reflexivity; try assumption.
    apply not_elem_of_nil.
Qed.

Lemma demo_grants_without_geolocation_witness :
  accessState (exec (checkLocation demoEnv) (initialState ∅)) = Granted true.
Proof.
  apply (demo_grants_without_geolocation demoEnv (initialState ∅)).
  right. reflexivity.
Defined.

Lemma checkLocation_request (env : Env) (s : State) :
  demoParam env ≠ Some "true" ->
  localStorage s !! "jammDemoMode" ≠ Some "true" ->
  geolocationSupported env = true ->
  checkLocation env s =
  (set_trace
     (trace s ++ [ConsoleLog [Str "Requesting location permission..."];
                  GetCurrentPosition])
     (set_geoPending (S (geoPending s)) s), Normal tt).
Proof.
  intros Hp Hs Hg. js.
  rewrite !bool_decide_eq_false_2 by assumption. cbn [orb]. rewrite Hg.
  js. rewrite <- app_assoc. reflexivity.
Qed.

Lemma checkLocation_unsupported (env : Env) (s : State) :
  demoParam env ≠ Some "true" ->
  localStorage s !! "jammDemoMode" ≠ Some "true" ->
  geolocationSupported env = false ->
  checkLocation env s =
  (set_currentScreen Screen.blocked
     (set_locationChecked true
        (set_trace
           (trace s ++ [ConsoleError [Str "Geolocation not supported"]]) s)),
   Normal tt).
Proof.
  intros Hp Hs Hg. js.
  rewrite !bool_decide_eq_false_2 by assumption. cbn [orb]. rewrite Hg.
  js. reflexivity.
Qed.

Lemma deliver_error (error : Error.t) (s : State) (k : nat) :
  geoPending s = S k ->
  snd (deliver (PositionError error) s) = Normal tt ∧
  currentScreen (exec (deliver (PositionError error)) s) = Screen.blocked.
Proof. intros H. js. rewrite H. js. split; reflexivity. Qed.


Lemma enableDemoMode_spec (s : State) :
  enableDemoMode s =
  (set_currentScreen Screen.splash
     (set_demoMode true
        (set_trace (trace s ++ [SetItem "jammDemoMode" "true"])
           (set_localStorage (<["jammDemoMode" := "true"]> (localStorage s)) s))),
   Normal tt).
Proof. reflexivity. Qed.

(** C3.  With no demo mode requested (neither the durable flag nor the
    URL parameter), a failed geolocation blocks: when geolocation is
    supported the request is issued and its error callback, whatever the
    error (permission denied, position unavailable, timeout), leads to
    [Blocked]; when it is not supported [checkLocation] itself does.
    Every handler involved completes normally.  From [Blocked],
    [enableDemoMode] grants access in demo mode and sets the durable
    flag. *)
Theorem geolocation_failure_blocks (env : Env) (s : State) (error : Error.t) :
  demoParam env ≠ Some "true" ->
  localStorage s !! "jammDemoMode" ≠ Some "true" ->
  let checked := exec (checkLocation env) s in
  snd (checkLocation env s) = Normal tt ∧
  (geolocationSupported env = true ->
   geoPending checked = S (geoPending s) ∧
   snd (deliver (PositionError error) checked) = Normal tt ∧
   accessState (exec (deliver (PositionError error)) checked) = Blocked) ∧
  (geolocationSupported env = false -> accessState checked = Blocked) ∧
  (forall b : State,
     accessState b = Blocked ->
     snd (enableDemoMode b) = Normal tt ∧
     accessState (exec enableDemoMode b) = Granted true ∧
     localStorage (exec enableDemoMode b) !! "jammDemoMode" = Some "true").
Proof.
  intros Hp Hs. cbv zeta. unfold exec.
  destruct (geolocationSupported env) eqn:Hg.
  - rewrite (checkLocation_request env s Hp Hs Hg). cbn [fst snd].
    split; [reflexivity |]. split; [| split; [discriminate |]].
    + intros _. split; [reflexivity |].
      match goal with
      | |- context [deliver _ ?c] =>
          destruct (deliver_error error c (geoPending s) eq_refl) as [Hn Hc]
      end.
      split; [exact Hn |]. unfold accessState. unfold exec in Hc.
      rewrite Hc. reflexivity.
    + intros b _. rewrite enableDemoMode_spec. js.
      rewrite lookup_insert_eq. repeat split; reflexivity.
  - rewrite (checkLocation_unsupported env s Hp Hs Hg). cbn [fst snd].
    split; [reflexivity |]. split; [discriminate |]. split.
    + intros _. reflexivity.
    + intros b _. rewrite enableDemoMode_spec. js.
      rewrite lookup_insert_eq. repeat split; reflexivity.
Qed.

Lemma geolocation_failure_blocks_witness :
  accessState
    (exec (deliver (PositionError permissionDenied))
       (exec (checkLocation plainEnv) (initialState ∅))) = Blocked.
Proof.
  refine (proj2 (proj2 (proj1 (proj2
    (geolocation_failure_blocks plainEnv (initialState ∅) permissionDenied
       _ _)) eq_refl))).
  - discriminate.
  - cbn [initialState localStorage]. rewrite lookup_empty. discriminate.
Defined.



(** ** Distance *)

(** *** In exact arithmetic *)

(** The formula of [calculateDistance], read over the real numbers, is
    symmetric in its two points and zero from a point to itself; on
    valid latitudes it is the haversine great-circle distance
    [2 R asin (sqrt h)] with [R] = 6371 km. *)
Lemma calculateDistance_exact (lat1 lon1 lat2 lon2 : R) :
  calculateDistance lat1 lon1 lat2 lon2 = calculateDistance lat2 lon2 lat1 lon1 ∧
  calculateDistance lat1 lon1 lat1 lon1 = 0%R ∧
  (validLatitude lat1 -> validLatitude lat2 ->
   calculateDistance lat1 lon1 lat2 lon2 = greatCircleKm lat1 lon1 lat2 lon2).
Proof.
  split; [| split].
  - unfold calculateDistance. cbv zeta.
    rewrite (haversine_a_sym lat1 lon1 lat2 lon2). reflexivity.
  - unfold calculateDistance. cbv zeta. rewrite haversine_a_refl.
    unfold Math.sqrt. replace (1 - 0)%R with 1%R by lra.
    rewrite sqrt_0, sqrt_1, atan2_0_1. lra.
  - intros H1 H2. unfold calculateDistance, greatCircleKm. cbv zeta.
    rewrite atan2_sqrt_asin by (apply haversine_a_range; assumption).
    rewrite <- haversine_a_hav. lra.
Qed.

(** *** In binary64: the operations *)

(** Rounding does not look at the sign: the sign given to
    [binary_round_aux] is the sign of what it returns.  So negation
    commutes with multiplication and division, and the two differences
    of two doubles are opposite, or both [+0]. *)
Section SpecFloatFacts.












End SpecFloatFacts.

(** The same facts of the doubles themselves. *)
Section DoubleFacts.
Local Open Scope float_scope.
















End DoubleFacts.

(** *** In binary64: the distance *)

Section DoubleDistance.
Local Open Scope float_scope.

Variable Math : Double.MathLib.
Hypothesis sin_odd : forall t, Double.sin Math (- t) = - Double.sin Math t.






End DoubleDistance.




(** The doubles at the two reference points of the gate: 4.18 km and
    21.84 km, on the sides of the radius of 15 km that
    [near_point_inside] and [east_point_outside] show of the exact
    distances. *)
Lemma reference_distances_double :
  Double.calculateDistance Double.tabulated 10.85 78.72 10.8155 78.7047 =
    4.184345542300294%float ∧
  Double.calculateDistance Double.tabulated 10.8155 78.9047 10.8155 78.7047 =
    21.843943239834065%float.
Proof. split; vm_compute; reflexivity. Qed.

(** ** Hotspot colours *)

(** C10.  [getHotspotColor] is a total function on strings; on every
    status other than 'high', 'medium' and 'low' it returns '#999'. *)
Theorem getHotspotColor_default (status : string) :
  status ≠ "high" -> status ≠ "medium" -> status ≠ "low" ->
  getHotspotColor status = "#999".
Proof.
  intros Hh Hm Hl. unfold getHotspotColor.
  apply String.eqb_neq in Hh, Hm, Hl. rewrite Hh, Hm, Hl. reflexivity.
Qed.

Lemma getHotspotColor_default_witness : getHotspotColor "closed" = "#999".
Proof. apply getHotspotColor_default; discriminate. Defined.

Lemma getHotspotColor_known :
  getHotspotColor "high" = "#4caf50" ∧
  getHotspotColor "medium" = "#ff9800" ∧
  getHotspotColor "low" = "#f44336".
Proof. repeat split; reflexivity. Qed.

Lemma exitDemoMode_demo_url (env : Env) (s : State) :
  demoParam env = Some "true" ->
  let s' := exec (exitDemoMode env) s in
  accessState s' = Granted true ∧
  localStorage s' !! "jammDemoMode" = Some "true" ∧
  geoPending s' = geoPending s ∧
  effectsOf (exitDemoMode env) s =
  [RemoveItem "jammDemoMode"; SetItem "jammDemoMode" "true"].
Proof.
  intros Hp. js. rewrite !bool_decide_eq_true_2 by assumption. cbn [orb]. js.
  rewrite lookup_insert_eq, <- app_assoc, drop_trace_app.
  repeat split; reflexivity.
Qed.

(** X12.  Without a demo parameter in the URL and with geolocation
    supported, [exitDemoMode] leaves demo mode, removes the durable flag
    and issues exactly one geolocation request. *)
Lemma exitDemoMode_rechecks (env : Env) (s : State) :
  demoParam env ≠ Some "true" ->
  geolocationSupported env = true ->
  let s' := exec (exitDemoMode env) s in
  demoMode s' = false ∧
  localStorage s' !! "jammDemoMode" = None ∧
  geoPending s' = S (geoPending s) ∧
  effectsOf (exitDemoMode env) s =
  [RemoveItem "jammDemoMode";
   ConsoleLog [Str "Requesting location permission..."];
   GetCurrentPosition].
Proof.
  intros Hp Hg. js. rewrite lookup_delete_eq.
  rewrite bool_decide_eq_false_2 by assumption.
  rewrite bool_decide_eq_false_2 by discriminate. cbn [orb]. rewrite Hg. js.
  rewrite lookup_delete_eq, <- !app_assoc, drop_trace_app.
  repeat split; reflexivity.
Qed.

Lemma exitDemoMode_rechecks_witness :
  let s' := exec (exitDemoMode plainEnv) (exec enableDemoMode (initialState ∅)) in
  demoMode s' = false ∧
  localStorage s' !! "jammDemoMode" = None ∧
  geoPending s' = 1 ∧
  effectsOf (exitDemoMode plainEnv) (exec enableDemoMode (initialState ∅)) =
  [RemoveItem "jammDemoMode";
   ConsoleLog [Str "Requesting location permission..."];
   GetCurrentPosition].
Proof. apply exitDemoMode_rechecks; [discriminate | reflexivity]. Defined.

(** C9, at the failing input.  Launched with [?demo=true], [Exit Demo]
    on the map screen removes the flag and sets it again, stays in demo
    mode and issues no geolocation request. *)
Theorem exitDemoMode_keeps_demo_under_demo_url :
  let events := [Mount; SplashTimer; Navigate ToMap] in
  let s := run demoEnv events (initialState ∅) in
  let s' := step demoEnv s ExitDemo in
  feasible demoEnv (events ++ [ExitDemo]) (initialState ∅) = true ∧
  accessState s = Granted true ∧
  accessState s' = Granted true ∧
  localStorage s' !! "jammDemoMode" = Some "true" ∧
  geoPending s' = 0 ∧
  trace s' =
  [SetItem "jammDemoMode" "true"; RemoveItem "jammDemoMode";
   SetItem "jammDemoMode" "true"].
Proof. vm_compute. repeat split; reflexivity. Qed.

(** ** Live feed *)

Lemma fetchHotspots_failed (r : Response (list Hotspot.t)) (e : Error.t) (s : State) :
  failure r = Some e ->
  fetchHotspots r s =
  (set_trace
     (trace s ++ [ConsoleError [Str "Error fetching hotspots:"; Err e];
                  SetLoading false])
     (set_loading false s), Normal tt).
Proof.
  intros H. destruct r as [data [e' |] | e']; cbn in H; inversion H; subst;
    js; rewrite <- app_assoc; reflexivity.
Qed.

Lemma fetchHotspots_ok (data : option (list Hotspot.t)) (s : State) :
  fetchHotspots (Resolved data None) s =
  (set_trace (trace s ++ [SetLoading false])
     (set_loading false
        (if data is Some d then set_hotspots d s else s)), Normal tt).
Proof. destruct data; reflexivity. Qed.

Lemma fetchProviders_failed (r : Response (list Provider.t)) (e : Error.t) (s : State) :
  failure r = Some e ->
  fetchProviders r s =
  (set_trace (trace s ++ [ConsoleError [Str "Error fetching providers:"; Err e]]) s,
   Normal tt).
Proof.
  intros H. destruct r as [data [e' |] | e']; cbn in H; inversion H; subst;
    reflexivity.
Qed.

Lemma fetchProviders_ok (data : option (list Provider.t)) (s : State) :
  fetchProviders (Resolved data None) s =
  ((if data is Some d
    then set_providers d (set_providersVersion (S (providersVersion s)) s)
    else s), Normal tt).
Proof. destruct data; reflexivity. Qed.

Lemma response_cases {A : Type} (r : Response A) :
  (exists e, failure r = Some e) ∨ (exists data, r = Resolved data None).
Proof.
  destruct r as [data [e |] | e]; [left | right | left]; eauto.
Qed.

(** C7, as the code has it.  A failed hotspot fetch and a failed
    provider fetch each log the error once, complete normally and leave
    both snapshots as they were; a successful one replaces its snapshot
    wholesale.  Every hotspot fetch, failed or not, calls the [loading]
    setter exactly once, with [false].  A provider fetch never calls
    it. *)
Theorem fetch_failure_keeps_snapshot (s : State) :
  (forall (r : Response (list Hotspot.t)) (e : Error.t),
     failure r = Some e ->
     let s' := exec (fetchHotspots r) s in
     snd (fetchHotspots r s) = Normal tt ∧
     errorsLogged (effectsOf (fetchHotspots r) s) =
       [[Str "Error fetching hotspots:"; Err e]] ∧
     hotspots s' = hotspots s ∧ providers s' = providers s) ∧
  (forall (r : Response (list Provider.t)) (e : Error.t),
     failure r = Some e ->
     let s' := exec (fetchProviders r) s in
     snd (fetchProviders r s) = Normal tt ∧
     errorsLogged (effectsOf (fetchProviders r) s) =
       [[Str "Error fetching providers:"; Err e]] ∧
     hotspots s' = hotspots s ∧ providers s' = providers s) ∧
  (forall data : list Hotspot.t,
     hotspots (exec (fetchHotspots (Resolved (Some data) None)) s) = data) ∧
  (forall data : list Provider.t,
     providers (exec (fetchProviders (Resolved (Some data) None)) s) = data) ∧
  (forall r : Response (list Hotspot.t),
     loadingCalls (effectsOf (fetchHotspots r) s) = [false] ∧
     loading (exec (fetchHotspots r) s) = false) ∧
  (forall r : Response (list Provider.t),
     loadingCalls (effectsOf (fetchProviders r) s) = [] ∧
     loading (exec (fetchProviders r) s) = loading s).
Proof.
  repeat apply conj.
  - intros r e H. cbv zeta. unfold exec, effectsOf.
    rewrite (fetchHotspots_failed r e s H). js. rewrite drop_trace_app.
    repeat split; reflexivity.
  - intros r e H. cbv zeta. unfold exec, effectsOf.
    rewrite (fetchProviders_failed r e s H). js. rewrite drop_trace_app.
    repeat split; reflexivity.
  - intros data. reflexivity.
  - intros data. reflexivity.
  - intros r. unfold exec, effectsOf.
    destruct (response_cases r) as [[e H] | [data ->]].
    + rewrite (fetchHotspots_failed r e s H). js. rewrite drop_trace_app.
      split; reflexivity.
    + rewrite fetchHotspots_ok. js. rewrite drop_trace_app.
      split; reflexivity.
  - intros r. unfold exec, effectsOf.
    destruct (response_cases r) as [[e H] | [data ->]].
    + rewrite (fetchProviders_failed r e s H). js. rewrite drop_trace_app.
      split; reflexivity.
    + rewrite fetchProviders_ok. destruct data; js; rewrite drop_all;
        split; reflexivity.
Qed.

Lemma fetch_failure_keeps_snapshot_witness :
  hotspots (exec (fetchHotspots (Rejected networkError)) (initialState ∅)) = [] ∧
  providers (exec (fetchHotspots (Rejected networkError)) (initialState ∅)) = [].
Proof.
  apply (proj1 (fetch_failure_keeps_snapshot (initialState ∅))
           (Rejected networkError) networkError eq_refl).
Defined.

(** C7 as stated fails for the provider fetch: after a failed provider
    fetch the [loading] flag is still set and its setter was not
    called. *)
Lemma failed_provider_fetch_leaves_loading :
  let r : Response (list Provider.t) := Rejected networkError in
  let s := initialState ∅ in
  failure r = Some networkError ∧
  loading (exec (fetchProviders r) s) = true ∧
  loadingCalls (effectsOf (fetchProviders r) s) = [].
Proof. repeat split; reflexivity. Qed.

(** ** Movement simulator *)

Section MovementLoop.
Variables (db : DbWrite) (random : nat -> R).

Lemma set_trace_same (s : State) : set_trace (trace s) s = s.
Proof. destruct s; reflexivity. Qed.

Lemma forOf_moveAndDrop (ps : list Provider.t) :
  forall (i : nat) (s : State),
    forOf ps i (moveAndDrop db random) s = loopResult db random rejected i ps s.
Proof.
  induction ps as [| p ps IH]; intros i s.
  - unfold loopResult. cbn. rewrite app_nil_r, set_trace_same. reflexivity.
  - cbn [forOf]. unfold mbind, Js_bind. unfold moveAndDrop at 1.
    unfold loopResult. cbn [requestsFrom takeThrough List.map firstError].
    unfold compose at 1.
    change (answer db (Provider.id p, movedLatitude random i p,
                       movedLongitude random i p))
      with (db (Provider.id p) (movedLatitude random i p)
              (movedLongitude random i p)).
    js_unfold.
    destruct (db (Provider.id p) (movedLatitude random i p)
                (movedLongitude random i p)) as [data error | reason];
      cbn [rejected failure].
    + rewrite IH. unfold loopResult. js_fields.
      rewrite <- app_assoc. reflexivity.
    + reflexivity.
Qed.

Lemma forOf_moveAndThrow (ps : list Provider.t) :
  forall (i : nat) (s : State),
    forOf ps i (moveAndThrow db random) s = loopResult db random failed i ps s.
Proof.
  induction ps as [| p ps IH]; intros i s.
  - unfold loopResult. cbn. rewrite app_nil_r, set_trace_same. reflexivity.
  - cbn [forOf]. unfold mbind, Js_bind. unfold moveAndThrow at 1.
    unfold loopResult. cbn [requestsFrom takeThrough List.map firstError].
    unfold compose at 1.
    change (answer db (Provider.id p, movedLatitude random i p,
                       movedLongitude random i p))
      with (db (Provider.id p) (movedLatitude random i p)
              (movedLongitude random i p)).
    js_unfold.
    destruct (db (Provider.id p) (movedLatitude random i p)
                (movedLongitude random i p)) as [data [e |] | reason];
      cbn [failed failure].
    + reflexivity.
    + rewrite IH. unfold loopResult. js_fields.
      rewrite <- app_assoc. reflexivity.
    + reflexivity.
Qed.

Lemma tick_result (stop : Response unit -> bool) (body : nat -> Provider.t -> Js unit)
  (s : State) :
  (forall ps i s, forOf ps i body s = loopResult db random stop i ps s) ->
  let qs := requestsFrom random 0 (providers s) in
  tryCatch (ps ← gets providers; forOf ps 0 body)
    (fun error => console_error [Str "Error simulating movement:"; Err error]) s =
  (set_trace
     (trace s ++ List.map updateOf (takeThrough (stop ∘ answer db) qs) ++
      movementLog (firstError stop (List.map (answer db) qs))) s,
   Normal tt).
Proof.
  intros Hloop. cbv zeta. unfold tryCatch, mbind, Js_bind, gets.
  rewrite Hloop. unfold loopResult.
  destruct (firstError stop _) as [e |]; cbn [movementLog].
  - js. rewrite <- app_assoc. reflexivity.
  - rewrite app_nil_r. reflexivity.
Qed.
End MovementLoop.

Lemma takeThrough_all {A : Type} (stop : A -> bool) (l : list A) :
  Forall (fun x => stop x = false) l -> takeThrough stop l = l.
Proof.
  induction 1 as [| x l Hx _ IH]; cbn; [reflexivity |].
  rewrite Hx, IH. reflexivity.
Qed.

Lemma firstError_none (stop : Response unit -> bool) (answers : list (Response unit)) :
  Forall (fun r => stop r = false) answers -> firstError stop answers = None.
Proof.
  induction 1 as [| r l Hr _ IH]; cbn; [reflexivity |].
  rewrite Hr. exact IH.
Qed.

Lemma writesSent_updates (qs : list (string * R * R)) :
  writesSent (List.map updateOf qs) = List.map (fun q => q.1.1) qs.
Proof.
  induction qs as [| q qs IH]; [reflexivity |].
  cbn. unfold writesSent in IH. rewrite IH. reflexivity.
Qed.

Lemma requestsFrom_ids (random : nat -> R) (ps : list Provider.t) :
  forall i, List.map (fun q => q.1.1) (requestsFrom random i ps) =
            List.map Provider.id ps.
Proof.
  induction ps as [| p ps IH]; intros i; [reflexivity |].
  cbn. rewrite IH. reflexivity.
Qed.

Lemma errorsLogged_updates (qs : list (string * R * R)) :
  errorsLogged (List.map updateOf qs) = [].
Proof. induction qs as [| q qs IH]; [reflexivity | exact IH]. Qed.

(** C8, as the code has it.  A tick writes the providers in order and
    completes normally.  In the second variant the answer of the store
    is dropped: the loop goes on after a write the store answers with an
    error, which is not logged; it ends at the first write whose promise
    rejects, which is logged.  In the first variant it ends at the first
    failed write of either kind, which is logged.  Providers after that
    write are not written in the tick.  In particular, in the second
    variant, when no promise rejects every provider is written and
    nothing is logged, whatever errors the answers carry. *)
Theorem tick_writes_until_exception (db : DbWrite) (random : nat -> R) (s : State) :
  let qs := requestsFrom random 0 (providers s) in
  let answers := List.map (answer db) qs in
  (snd (simulateProviderMovement db random s) = Normal tt ∧
   effectsOf (simulateProviderMovement db random) s =
   List.map updateOf (takeThrough (rejected ∘ answer db) qs) ++
   movementLog (firstError rejected answers)) ∧
  (snd (V1.simulateProviderMovement db random s) = Normal tt ∧
   effectsOf (V1.simulateProviderMovement db random) s =
   List.map updateOf (takeThrough (failed ∘ answer db) qs) ++
   movementLog (firstError failed answers)) ∧
  (Forall (fun q => rejected (answer db q) = false) qs ->
   writesSent (effectsOf (simulateProviderMovement db random) s) =
   List.map Provider.id (providers s) ∧
   errorsLogged (effectsOf (simulateProviderMovement db random) s) = []).
Proof.
  cbv zeta.
  assert (H2 : snd (simulateProviderMovement db random s) = Normal tt ∧
               effectsOf (simulateProviderMovement db random) s =
               List.map updateOf
                 (takeThrough (rejected ∘ answer db)
                    (requestsFrom random 0 (providers s))) ++
               movementLog
                 (firstError rejected
                    (List.map (answer db) (requestsFrom random 0 (providers s))))).
  { pose proof (tick_result db random rejected (moveAndDrop db random) s
                  (forOf_moveAndDrop db random)) as H.
    cbv zeta in H. unfold simulateProviderMovement, effectsOf.
    unfold moveAndDrop in H. rewrite H. js. rewrite drop_trace_app.
    split; reflexivity. }
  split; [exact H2 | split].
  - pose proof (tick_result db random failed (moveAndThrow db random) s
                  (forOf_moveAndThrow db random)) as H.
    cbv zeta in H. unfold V1.simulateProviderMovement, effectsOf.
    unfold moveAndThrow in H. rewrite H. js. rewrite drop_trace_app.
    split; reflexivity.
  - intros Hall. destruct H2 as [_ ->].
    rewrite (takeThrough_all (rejected ∘ answer db)) by exact Hall.
    rewrite firstError_none by (apply Forall_map; exact Hall).
    cbn [movementLog]. rewrite app_nil_r.
    rewrite writesSent_updates, requestsFrom_ids, errorsLogged_updates.
    split; reflexivity.
Qed.

Lemma tick_writes_until_exception_witness :
  let s := set_providers [ravi; kumar] (initialState ∅) in
  let db := failingFor "p1" (Resolved None (Some networkError)) in
  let random := fun _ : nat => 0.5%R in
  writesSent (effectsOf (simulateProviderMovement db random) s) = ["p1"; "p2"] ∧
  errorsLogged (effectsOf (simulateProviderMovement db random) s) = [].
Proof.
  apply (proj2 (proj2
    (tick_writes_until_exception
       (failingFor "p1" (Resolved None (Some networkError)))
       (fun _ => 0.5%R) (set_providers [ravi; kumar] (initialState ∅))))).
  repeat constructor.
Defined.

(** C8 as stated fails.  With two providers and a store that answers
    the first write with an error, the second variant logs nothing, and
    the first variant does not write the second provider. *)
Lemma write_failure_not_best_effort :
  let s := set_providers [ravi; kumar] (initialState ∅) in
  let db := failingFor "p1" (Resolved None (Some networkError)) in
  let random := fun _ : nat => 0.5%R in
  errorsLogged (effectsOf (simulateProviderMovement db random) s) = [] ∧
  writesSent (effectsOf (V1.simulateProviderMovement db random) s) = ["p1"] ∧
  ¬ bestEffort simulateProviderMovement db random s ∧
  ¬ bestEffort V1.simulateProviderMovement db random s.
Proof.
  cbv zeta.
  assert (H2 : errorsLogged
                 (effectsOf
                    (simulateProviderMovement
                       (failingFor "p1" (Resolved None (Some networkError)))
                       (fun _ => 0.5%R))
                    (set_providers [ravi; kumar] (initialState ∅))) = [])
    by reflexivity.
  assert (H1 : writesSent
                 (effectsOf
                    (V1.simulateProviderMovement
                       (failingFor "p1" (Resolved None (Some networkError)))
                       (fun _ => 0.5%R))
                    (set_providers [ravi; kumar] (initialState ∅))) = ["p1"])
    by reflexivity.
  repeat split; try assumption.
  - intros [_ Hlog]. rewrite H2 in Hlog. discriminate Hlog.
  - intros [Hw _]. rewrite H1 in Hw. discriminate Hw.
Qed.

(** ** What a handler leaves alone *)

Section Frame.
Context (P : State -> State -> Prop).
Context (P_refl : forall s, P s s).
Context (P_trans : forall a b c, P a b -> P b c -> P a c).

Lemma keeps_ret {A : Type} (a : A) : keeps P (mret a).
Proof. intros s. apply P_refl. Qed.

Lemma keeps_throw {A : Type} (e : Error.t) : keeps P (@throw A e).
Proof. intros s. apply P_refl. Qed.

Lemma keeps_gets {A : Type} (f : State -> A) : keeps P (gets f).
Proof. intros s. apply P_refl. Qed.

Lemma keeps_modify (f : State -> State) :
  (forall s, P s (f s)) -> keeps P (modify f).
Proof. intros H s. apply H. Qed.

Lemma keeps_bind {A B : Type} (m : Js A) (f : A -> Js B) :
  keeps P m -> (forall a, keeps P (f a)) -> keeps P (m ≫= f).
Proof.
  intros Hm Hf s. unfold mbind, Js_bind. specialize (Hm s).
  destruct (m s) as [s' [a | e]]; cbn [fst] in *.
  - eapply P_trans; [exact Hm | apply Hf].
  - exact Hm.
Qed.

Lemma keeps_tryCatch {A : Type} (body : Js A) (handler : Error.t -> Js A) :
  keeps P body -> (forall e, keeps P (handler e)) -> keeps P (tryCatch body handler).
Proof.
  intros Hb Hh s. unfold tryCatch. specialize (Hb s).
  destruct (body s) as [s' [a | e]]; cbn [fst] in *.
  - exact Hb.
  - eapply P_trans; [exact Hb | apply Hh].
Qed.

Lemma keeps_finally {A : Type} (body : Js A) (finalizer : Js unit) :
  keeps P body -> keeps P finalizer -> keeps P (finally body finalizer).
Proof.
  intros Hb Hf s. unfold finally. specialize (Hb s).
  destruct (body s) as [s' c]. specialize (Hf s'). cbn [fst] in *.
  destruct (finalizer s') as [s'' [[] | e]]; cbn [fst] in *;
    eapply P_trans; eassumption.
Qed.

Lemma keeps_forOf {A : Type} (xs : list A) (body : nat -> A -> Js unit) :
  (forall i x, keeps P (body i x)) -> forall i, keeps P (forOf xs i body).
Proof.
  intros Hb. induction xs as [| x xs IH]; intros i; cbn [forOf].
  - apply keeps_ret.
  - apply keeps_bind; [apply Hb | intros _; apply IH].
Qed.

Lemma keeps_await {A : Type} (r : Response A) : keeps P (await r).
Proof. destruct r; [apply keeps_ret | apply keeps_throw]. Qed.
End Frame.

(** Decomposes a [keeps] goal along the structure of the handler. *)
Ltac keeps_tac refl trans leaf :=
  repeat first
    [ apply (keeps_ret _ refl)
    | apply (keeps_throw _ refl)
    | apply (keeps_gets _ refl)
    | apply (keeps_await _ refl)
    | apply (keeps_bind _ trans); [| intros ?]
    | apply (keeps_tryCatch _ trans); [| intros ?]
    | apply (keeps_finally _ trans)
    | apply (keeps_forOf _ refl trans); intros ? ?
    | apply keeps_modify; intros ?; leaf
    | match goal with
      | |- keeps _ (if ?b then _ else _) => destruct b
      | |- keeps _ (match ?x with _ => _ end) => destruct x
      | |- keeps _ (let '(_, _) := ?x in _) => destruct x
      end
    | progress cbv beta zeta ].

Ltac handlers_unfold :=
  cbv beta iota zeta delta
    [emit console_log console_error localStorage_getItem
     localStorage_setItem localStorage_removeItem getCurrentPosition
     setCurrentScreen setHotspots setProviders
     setSelectedProvider setLoading setShowProviderMovement setDemoMode
     setLocationChecked onPosition onPositionError checkLocation deliver
     fetchHotspots fetchProviders goToScreen bookRide enableDemoMode
     exitDemoMode splashTimer simulateProviderMovement handle].

(** ** Movement timer *)

Lemma sameTimers_refl (s : State) : sameTimers s s.
Proof. reflexivity. Qed.

Lemma sameTimers_trans (a b c : State) :
  sameTimers a b -> sameTimers b c -> sameTimers a c.
Proof. unfold sameTimers. congruence. Qed.

Lemma handle_sameTimers (env : Env) (e : Event) :
  keeps sameTimers (handle env e).
Proof.
  destruct e; handlers_unfold;
    keeps_tac sameTimers_refl sameTimers_trans ltac:(reflexivity).
Qed.

Lemma timerInv_view (s s' : State) : sameTimers s s' -> timerInv s -> timerInv s'.
Proof.
  unfold sameTimers, timerView, timerInv. intros H.
  injection H as -> -> -> -> ->. trivial.
Qed.

Lemma filter_other_singleton (id : nat) : filter (fun x => x ≠ id) [id] = [].
Proof.
  cbn. destruct (decide (id ≠ id)) as [H | _]; [contradiction | reflexivity].
Qed.

Lemma movementEffect_inv (s : State) :
  timerInv s -> timerInv (exec movementEffect s).
Proof.
  intros [Hn Hinv]. js.
  destruct (bool_decide _) eqn:Hdeps; js; [split; assumption |].
  destruct Hinv as [[Hc Ht] | (id & version & Hid & Hc & Hm & Ht & Hd)].
  - rewrite Hc. js.
    destruct (showProviderMovement s && (0 <? length (providers s))) eqn:Hshow; js.
    + apply andb_true_iff in Hshow as [-> _]. split; [discriminate |]. right.
      exists (nextTimer s), (providersVersion s). rewrite Ht. auto.
    + split; [assumption |]. left. auto.
  - rewrite Hc, Hm. js. rewrite bool_decide_eq_false_2 by assumption. js.
    rewrite Ht, filter_other_singleton.
    destruct (showProviderMovement s && (0 <? length (providers s))) eqn:Hshow; js.
    + apply andb_true_iff in Hshow as [-> _]. split; [discriminate |]. right.
      exists (nextTimer s), (providersVersion s). auto.
    + split; [assumption |]. left. auto.
Qed.

Lemma step_inv (env : Env) (s : State) (e : Event) :
  timerInv s -> timerInv (step env s e).
Proof.
  intros H. unfold step. apply movementEffect_inv.
  eapply timerInv_view; [apply handle_sameTimers | exact H].
Qed.

Lemma run_inv (env : Env) (events : list Event) :
  forall s, timerInv s -> timerInv (run env events s).
Proof.
  induction events as [| e events IH]; intros s H; [exact H |].
  apply IH, step_inv, H.
Qed.

Lemma initial_inv (storage : gmap string string) : timerInv (initialState storage).
Proof. split; [discriminate | left; split; reflexivity]. Qed.

(** X10.  Across any sequence of events at most one movement timer is
    active. *)
Lemma timers_at_most_one (env : Env) (events : list Event)
  (storage : gmap string string) :
  length (timers (run env events (initialState storage))) <= 1.
Proof.
  destruct (run_inv env events _ (initial_inv storage))
    as [_ [[_ ->] | (id & _ & _ & _ & _ & -> & _)]]; cbn; lia.
Qed.

(** X11.  Leaving the map through [goToScreen] stops the timer: after
    any sequence of events, navigating to the destination or the
    providers screen clears [showProviderMovement] and leaves no timer
    active. *)
Lemma goToScreen_away_stops_timer (env : Env) (events : list Event)
  (storage : gmap string string) (target : NavTarget) :
  target ≠ ToMap ->
  let s' := step env (run env events (initialState storage)) (Navigate target) in
  showProviderMovement s' = false ∧ timers s' = [].
Proof.
  intros Htarget. cbv zeta.
  pose proof (run_inv env events _ (initial_inv storage)) as Hinv.
  set (s := run env events (initialState storage)) in *.
  assert (Hs1 : exists s1, exec (handle env (Navigate target)) s = s1 ∧
                           showProviderMovement s1 = false ∧ timerInv s1).
  { eexists. split; [reflexivity |]. split.
    - destruct target; [contradiction | reflexivity | reflexivity].
    - eapply timerInv_view; [apply handle_sameTimers | exact Hinv]. }
  destruct Hs1 as (s1 & Hs1 & Hshow & [Hn Hinv1]).
  unfold step. rewrite Hs1. clear Hs1. js. rewrite Hshow.
  destruct (bool_decide _) eqn:Hdeps; js.
  - split; [assumption |].
    destruct Hinv1 as [[_ Ht] | (id & version & _ & _ & _ & _ & Hd)];
      [exact Ht |].
    apply bool_decide_eq_true in Hdeps. congruence.
  - cbn [andb].
    destruct Hinv1 as [[Hc Ht] | (id & version & Hid & Hc & Hm & Ht & Hd)].
    + rewrite Hc. js. auto.
    + rewrite Hc, Hm. js. rewrite bool_decide_eq_false_2 by assumption. js.
      rewrite Ht, filter_other_singleton. auto.
Qed.

Lemma goToScreen_away_stops_timer_witness :
  let s' :=
    step demoEnv
      (run demoEnv
         [Mount; SplashTimer; Navigate ToMap;
          ProvidersResponse (Resolved (Some [ravi]) None)]
         (initialState ∅))
      (Navigate ToDestination) in
  showProviderMovement s' = false ∧ timers s' = [].
Proof. apply goToScreen_away_stops_timer. discriminate. Defined.

(** C5, at the failing input.  On the map screen with one provider
    known the movement timer runs; [bookRide] from there shows the
    confirmation screen and leaves [showProviderMovement] set and the
    timer active. *)
Theorem bookRide_from_map_keeps_timer :
  let events :=
    [Mount; SplashTimer; Navigate ToMap;
     ProvidersResponse (Resolved (Some [ravi]) None)] in
  let s := run demoEnv events (initialState ∅) in
  let s' := step demoEnv s (BookRide ravi) in
  feasible demoEnv (events ++ [BookRide ravi]) (initialState ∅) = true ∧
  currentScreen s = Screen.map ∧ timers s = [1] ∧
  currentScreen s' = Screen.confirmation ∧
  showProviderMovement s' = true ∧ timers s' = [1].
Proof. vm_compute. repeat split; reflexivity. Qed.

(** ** Booking *)

Lemma noEntry_refl (s : State) : noEntry s s.
Proof. split; auto. Qed.

Lemma noEntry_trans (a b c : State) : noEntry a b -> noEntry b c -> noEntry a c.
Proof. intros [H1 H2] [H3 H4]. split; [congruence | auto]. Qed.

Ltac noEntry_leaf :=
  split; [reflexivity | cbn; first [discriminate | trivial]].

Lemma handle_noEntry (env : Env) (e : Event) :
  (forall p, e ≠ BookRide p) -> keeps noEntry (handle env e).
Proof.
  intros Hne. destruct e as [| o | | target | p | | | r | r | db random];
    try (exfalso; exact (Hne p eq_refl));
    try destruct target;
    handlers_unfold;
    keeps_tac noEntry_refl noEntry_trans ltac:(noEntry_leaf).
Qed.

Lemma movementEffect_noEntry : keeps noEntry movementEffect.
Proof.
  cbv beta iota zeta delta [movementEffect movementEffectCleanup setInterval
                            clearInterval emit].
  keeps_tac noEntry_refl noEntry_trans ltac:(noEntry_leaf).
Qed.

Lemma step_noEntry (env : Env) (s : State) (e : Event) :
  (forall p, e ≠ BookRide p) -> noEntry s (step env s e).
Proof.
  intros Hne. unfold step, exec.
  eapply noEntry_trans; [apply (handle_noEntry env e Hne) | apply movementEffect_noEntry].
Qed.

Lemma step_bookRide (env : Env) (s : State) (p : Provider.t) :
  currentScreen (step env s (BookRide p)) = Screen.confirmation ∧
  selectedProvider (step env s (BookRide p)) = Some p.
Proof.
  unfold step.
  destruct (movementEffect_noEntry (exec (handle env (BookRide p)) s)) as [Hsel _].
  assert (Hscr : currentScreen (exec movementEffect (exec (handle env (BookRide p)) s)) =
                 Screen.confirmation).
  { js. destruct (bool_decide _); js; [reflexivity |].
    destruct (movementCleanup s); js.
    - destruct (movementInterval s) as [id |]; js.
      + destruct (bool_decide (id = 0)); js;
          destruct (showProviderMovement s && _); reflexivity.
      + destruct (showProviderMovement s && _); reflexivity.
    - destruct (showProviderMovement s && _); reflexivity. }
  split; [exact Hscr |]. unfold exec in *. rewrite Hsel. reflexivity.
Qed.

Lemma run_snoc (env : Env) (events : list Event) (e : Event) (s : State) :
  run env (events ++ [e]) s = step env (run env events s) e.
Proof. unfold run. rewrite fold_left_app. reflexivity. Qed.

Lemma lastBooked_snoc_book (events : list Event) (p : Provider.t) :
  lastBooked (events ++ [BookRide p]) = Some p.
Proof. unfold lastBooked. rewrite omap_app. cbn. apply last_snoc. Qed.

Lemma lastBooked_snoc_other (events : list Event) (e : Event) :
  (forall p, e ≠ BookRide p) -> lastBooked (events ++ [e]) = lastBooked events.
Proof.
  intros Hne. unfold lastBooked. rewrite omap_app.
  destruct e; try (rewrite app_nil_r; reflexivity).
  exfalso. eapply Hne. reflexivity.
Qed.

Lemma event_cases (e : Event) :
  (exists p, e = BookRide p) ∨ (forall p, e ≠ BookRide p).
Proof. destruct e; eauto; right; discriminate. Qed.

(** C6, as the code has it.  [bookRide] shows the confirmation screen
    and overwrites the selected provider; no other event changes the
    selected provider or enters the confirmation screen.  So the value
    held is at all times the provider of the last select action, it is
    never cleared, and whenever the confirmation screen shows there has
    been a select action. *)
Theorem selection_is_last_booked (env : Env) :
  (forall (s : State) (p : Provider.t),
     currentScreen (step env s (BookRide p)) = Screen.confirmation ∧
     selectedProvider (step env s (BookRide p)) = Some p) ∧
  (forall (s : State) (e : Event),
     (forall p, e ≠ BookRide p) ->
     selectedProvider (step env s e) = selectedProvider s ∧
     (currentScreen (step env s e) = Screen.confirmation ->
      currentScreen s = Screen.confirmation)) ∧
  (forall (events : list Event) (storage : gmap string string),
     let s := run env events (initialState storage) in
     selectedProvider s = lastBooked events ∧
     (currentScreen s = Screen.confirmation -> is_Some (lastBooked events))).
Proof.
  split; [| split].
  - intros s p. apply step_bookRide.
  - intros s e Hne. apply (step_noEntry env s e Hne).
  - intros events storage. cbv zeta.
    induction events as [| e events IH] using rev_ind.
    + split; [reflexivity | discriminate].
    + rewrite run_snoc. destruct IH as [IHsel IHscr].
      destruct (event_cases e) as [[p ->] | Hne].
      * rewrite lastBooked_snoc_book.
        destruct (step_bookRide env (run env events (initialState storage)) p)
          as [_ Hsel].
        split; [exact Hsel | eauto].
      * rewrite (lastBooked_snoc_other events e Hne).
        destruct (step_noEntry env (run env events (initialState storage)) e Hne)
          as [Hsel Hscr].
        split; [congruence | auto].
Qed.

Lemma selection_is_last_booked_witness :
  let s := step demoEnv (initialState ∅) (Navigate ToMap) in
  selectedProvider s = None ∧
  (currentScreen s = Screen.confirmation ->
   currentScreen (initialState ∅) = Screen.confirmation).
Proof.
  apply (proj1 (proj2 (selection_is_last_booked demoEnv))
           (initialState ∅) (Navigate ToMap)).
  discriminate.
Defined.

(** C6 as stated fails: after a select action and the return to the map
    the selected provider is still held. *)
Lemma selection_survives_leaving_confirmation :
  let events :=
    [Mount; SplashTimer; Navigate ToMap;
     ProvidersResponse (Resolved (Some [ravi; kumar]) None);
     BookRide ravi; Navigate ToMap] in
  let s := run demoEnv events (initialState ∅) in
  feasible demoEnv events (initialState ∅) = true ∧
  currentScreen s = Screen.map ∧
  selectedProvider s = Some ravi.
Proof. vm_compute. repeat split; reflexivity. Qed.

(** ** More on the hotspot colours *)

(** X4.  [getHotspotColor] returns the default colour exactly on the
    statuses other than 'high', 'medium' and 'low', and tells these three
    apart. *)
Theorem getHotspotColor_default_iff (status : string) :
  (getHotspotColor status = "#999" <->
   status ≠ "high" ∧ status ≠ "medium" ∧ status ≠ "low") ∧
  (getHotspotColor status = "#4caf50" <-> status = "high") ∧
  (getHotspotColor status = "#ff9800" <-> status = "medium") ∧
  (getHotspotColor status = "#f44336" <-> status = "low").
Proof.
  unfold getHotspotColor.
  destruct (String.eqb_spec status "high") as [-> | Hh].
  { repeat split; try discriminate; try reflexivity; intros H;
      try discriminate H; destruct H as (? & ? & ?); congruence. }
  destruct (String.eqb_spec status "medium") as [-> | Hm].
  { repeat split; try discriminate; try reflexivity; intros H;
      try discriminate H; destruct H as (? & ? & ?); congruence. }
  destruct (String.eqb_spec status "low") as [-> | Hl].
  { repeat split; try discriminate; try reflexivity; intros H;
      try discriminate H; destruct H as (? & ? & ?); congruence. }
  repeat split; try assumption; try discriminate; intros H;
    try contradiction; try reflexivity.
Qed.

(** ** More on the state machine *)

Lemma sameApp_refl (s : State) : sameApp s s.
Proof. reflexivity. Qed.

Lemma sameApp_trans (a b c : State) : sameApp a b -> sameApp b c -> sameApp a c.
Proof. unfold sameApp. congruence. Qed.

Lemma movementEffect_sameApp : keeps sameApp movementEffect.
Proof.
  cbv beta iota zeta delta [movementEffect movementEffectCleanup setInterval
                            clearInterval emit].
  keeps_tac sameApp_refl sameApp_trans ltac:(reflexivity).
Qed.

Lemma step_fields (env : Env) (s : State) (e : Event) :
  appView (step env s e) = appView (exec (handle env e) s).
Proof. apply movementEffect_sameApp. Qed.

Lemma sameDemo_refl (s : State) : sameDemo s s.
Proof. split; reflexivity. Qed.

Lemma sameDemo_trans (a b c : State) : sameDemo a b -> sameDemo b c -> sameDemo a c.
Proof. intros [? ?] [? ?]. split; congruence. Qed.

Lemma handle_sameDemo (env : Env) (e : Event) :
  e ≠ Mount -> e ≠ EnableDemo -> e ≠ ExitDemo -> keeps sameDemo (handle env e).
Proof.
  intros H1 H2 H3. destruct e; try contradiction; handlers_unfold;
    keeps_tac sameDemo_refl sameDemo_trans ltac:(split; reflexivity).
Qed.

Lemma checkLocation_flag (env : Env) (s : State) :
  let s' := exec (checkLocation env) s in
  (demoMode s = true -> flagSet s -> demoMode s' = true ∧ flagSet s') ∧
  (demoMode s = false -> ¬ flagSet s -> (demoMode s' = true <-> flagSet s')).
Proof.
  cbv zeta. unfold flagSet. js.
  destruct (bool_decide (demoParam env = Some "true")) eqn:Hp; cbn [orb].
  - js. rewrite lookup_insert_eq. split; intros; [split | split]; auto.
  - destruct (bool_decide (localStorage s !! "jammDemoMode" = Some "true")) eqn:Hf.
    + apply bool_decide_eq_true in Hf. js. split; intros; [auto | contradiction].
    + apply bool_decide_eq_false in Hf.
      destruct (geolocationSupported env); js; split; intros; try contradiction;
        split; intros; congruence.
Qed.

Lemma step_flag (env : Env) (s : State) (e : Event) :
  (demoMode s = true <-> flagSet s) ->
  (demoMode (step env s e) = true <-> flagSet (step env s e)).
Proof.
  intros Hinv.
  assert (Hv := step_fields env s e). unfold appView in Hv.
  injection Hv as _ _ _ _ _ _ Hd _ _ Hl _.
  unfold flagSet in *. rewrite Hd, Hl. clear Hd Hl.
  destruct e;
    try (lazymatch goal with
         | |- context [handle env ?ev] =>
             destruct (handle_sameDemo env ev ltac:(discriminate)
                         ltac:(discriminate) ltac:(discriminate) s) as [Hd Hl]
         end;
         unfold exec; rewrite Hd, Hl; exact Hinv).
  - (* Mount *)
    destruct (checkLocation_flag env s) as [H1 H2]. cbn [handle].
    destruct (demoMode s) eqn:Hdm.
    + destruct (H1 eq_refl (proj1 Hinv eq_refl)) as [-> ->]. tauto.
    + apply H2; [reflexivity |]. intros Hf. apply Hinv in Hf. discriminate.
  - (* EnableDemo *)
    cbn [handle]. js. rewrite lookup_insert_eq. tauto.
  - (* ExitDemo *)
    cbn [handle].
    set (s1 := exec (localStorage_removeItem "jammDemoMode";; setDemoMode false) s).
    assert (Hs1 : demoMode s1 = false ∧ ¬ flagSet s1).
    { unfold s1, flagSet. js. rewrite lookup_delete_eq. split; [reflexivity | discriminate]. }
    destruct Hs1 as [Hd Hf].
    destruct (checkLocation_flag env s1) as [_ H2].
    specialize (H2 Hd Hf). exact H2.
Qed.

(** X5.  After the mount effect, whatever happens next, the component is
    in demo mode exactly when the durable demo flag is set. *)
Theorem demoMode_iff_flag (env : Env) (storage : gmap string string)
  (events : list Event) :
  let s := run env (Mount :: events) (initialState storage) in
  demoMode s = true <-> flagSet s.
Proof.
  cbv zeta. induction events as [| e events IH] using rev_ind.
  - cbn [run fold_left].
    assert (Hv := step_fields env (initialState storage) Mount).
    unfold appView in Hv. injection Hv as _ _ _ _ _ _ Hd _ _ Hl _.
    unfold flagSet. rewrite Hd, Hl. cbn [handle].
    destruct (checkLocation_flag env (initialState storage)) as [_ H2].
    destruct (decide (flagSet (initialState storage))) as [Hf | Hf].
    + clear H2. unfold flagSet in *. cbn [initialState localStorage] in Hf.
      js. rewrite (bool_decide_eq_true_2 _ Hf), orb_true_r.
      destruct (bool_decide (demoParam env = Some "true")); js;
        [rewrite lookup_insert_eq |]; tauto.
    + apply H2; [reflexivity | exact Hf].
  - rewrite app_comm_cons, run_snoc. apply step_flag, IH.
Qed.

(** X6.  The demo choice survives a reload.  A launch over the store
    [enableDemoMode] leaves grants demo access without a geolocation
    request, whatever the URL.  A launch over the store [exitDemoMode]
    leaves, with no demo parameter in either URL, is not in demo mode and
    not granted: it waits for the geolocation answer or is blocked. *)
Theorem demo_choice_survives_reload (s : State) (env env' : Env) :
  (let storage := localStorage (exec enableDemoMode s) in
   accessState (exec (checkLocation env') (initialState storage)) = Granted true ∧
   GetCurrentPosition ∉ trace (exec (checkLocation env') (initialState storage))) ∧
  (demoParam env ≠ Some "true" -> demoParam env' ≠ Some "true" ->
   let storage := localStorage (exec (exitDemoMode env) s) in
   let s' := exec (checkLocation env') (initialState storage) in
   demoMode s' = false ∧
   accessState s' = (if geolocationSupported env' then Checking else Blocked) ∧
   geoPending s' = (if geolocationSupported env' then 1 else 0)).
Proof.
  split.
  - cbv zeta. unfold exec at 1 3.
    assert (Hf : localStorage (initialState (localStorage (exec enableDemoMode s)))
                 !! "jammDemoMode" = Some "true").
    { js. apply lookup_insert_eq. }
    rewrite (checkLocation_demo env' _ (or_introl Hf)). cbv zeta.
    destruct (bool_decide (demoParam env' = Some "true")); js.
    + split; [reflexivity |]. intros Hin.
      apply list_elem_of_singleton in Hin. discriminate.
    + split; [reflexivity | apply not_elem_of_nil].
  - intros Hp Hp'. cbv zeta.
    assert (Hf : localStorage (initialState (localStorage (exec (exitDemoMode env) s)))
                 !! "jammDemoMode" ≠ Some "true").
    { cbn [initialState localStorage]. js. rewrite lookup_delete_eq.
      rewrite (bool_decide_eq_false_2 _ Hp).
      rewrite bool_decide_eq_false_2 by discriminate. cbn [orb].
      destruct (geolocationSupported env); js; rewrite lookup_delete_eq;
        discriminate. }
    unfold exec at 1 3 5.
    destruct (geolocationSupported env') eqn:Hg.
    + rewrite (checkLocation_request env' _ Hp' Hf Hg). js.
      repeat split; reflexivity.
    + rewrite (checkLocation_unsupported env' _ Hp' Hf Hg). js.
      repeat split; reflexivity.
Qed.

Lemma demo_choice_survives_reload_witness :
  let storage := localStorage (exec (exitDemoMode plainEnv) (initialState ∅)) in
  let s' := exec (checkLocation plainEnv) (initialState storage) in
  demoMode s' = false ∧ accessState s' = Checking ∧ geoPending s' = 1.
Proof.
  apply (proj2 (demo_choice_survives_reload (initialState ∅) plainEnv plainEnv));
    discriminate.
Defined.

Lemma sameGate_refl (s : State) : sameGate s s.
Proof. repeat split. Qed.

Lemma sameGate_trans (a b c : State) : sameGate a b -> sameGate b c -> sameGate a c.
Proof. intros (? & ? & ?) (? & ? & ?). repeat split; congruence. Qed.

Lemma passive_gateView (env : Env) (e : Event) :
  passive e = true -> keeps sameGate (handle env e).
Proof.
  intros H. destruct e; try discriminate H; handlers_unfold;
    keeps_tac sameGate_refl sameGate_trans ltac:(solve [repeat split]).
Qed.

Lemma passive_gate (env : Env) (e : Event) (s : State) :
  passive e = true ->
  geoPending (exec (handle env e) s) = geoPending s ∧
  demoMode (exec (handle env e) s) = demoMode s ∧
  currentScreen (exec (handle env e) s) = currentScreen s.
Proof. intros H. apply (passive_gateView env e H s). Qed.



Lemma step_gate (env : Env) (s : State) (e : Event) :
  geoPending (step env s e) = geoPending (exec (handle env e) s) ∧
  demoMode (step env s e) = demoMode (exec (handle env e) s) ∧
  currentScreen (step env s e) = currentScreen (exec (handle env e) s).
Proof.
  assert (Hv := step_fields env s e). unfold appView in Hv.
  injection Hv as Hscr _ _ _ _ _ Hd _ _ _ Hp. auto.
Qed.

Lemma onScreen_one (s : State) (x : Screen.t) :
  onScreen s [x] = true -> currentScreen s = x.
Proof. unfold onScreen. cbn. destruct x, (currentScreen s); cbn; congruence. Qed.

Lemma onScreen_not_blocked (s : State) (screens : list Screen.t) :
  onScreen s (Screen.checking :: Screen.blocked :: screens) = false ->
  currentScreen s ≠ Screen.blocked.
Proof. unfold onScreen. cbn. destruct (currentScreen s); cbn; congruence. Qed.

Lemma step_oneInFlight (env : Env) (s : State) (e : Event) :
  oneInFlight s -> offered s e = true -> e ≠ Mount -> oneInFlight (step env s e).
Proof.
  intros [Hle Hone] Hoff Hne. unfold oneInFlight.
  destruct (step_gate env s e) as (-> & -> & ->).
  destruct e as [| o | | target | p | | | r | r | db random];
    try contradiction.
  - (* an answer of the geolocation provider *)
    cbn in Hoff. js. destruct (geoPending s) as [| k]; [discriminate |]. js.
    destruct o as [latitude longitude | error]; js;
      [destruct (Rle_dec _ _); js |]; split; (lia || discriminate).
  - (* the splash timer *)
    js. destruct (currentScreen s) eqn:Hscr; js; split; try assumption;
      intros H; destruct (Hone H) as [Hd Hb]; split; congruence.
  - destruct target; js; split; try assumption;
      intros H; destruct (Hone H) as [Hd Hb]; split; (assumption || discriminate).
  - js. split; try assumption.
    intros H; destruct (Hone H) as [Hd Hb]; split; (assumption || discriminate).
  - (* the demo opt-in: offered on the blocked screen *)
    cbn [offered] in Hoff. apply onScreen_one in Hoff. js.
    assert (geoPending s ≠ 1) by (intros H; destruct (Hone H); contradiction).
    split; [assumption | intros; contradiction].
  - (* leaving demo mode: offered in demo mode, off the blocked screen *)
    cbn [offered] in Hoff. apply andb_true_iff in Hoff as [Hd Hscr].
    apply negb_true_iff, onScreen_not_blocked in Hscr.
    assert (Hp : geoPending s = 0).
    { destruct (decide (geoPending s = 1)) as [H | H]; [| lia].
      destruct (Hone H). congruence. }
    js. destruct (bool_decide (demoParam env = Some "true") || _).
    + destruct (bool_decide (demoParam env = Some "true")); js;
        (split; [lia | intros; lia]).
    + destruct (geolocationSupported env); js; rewrite Hp.
      * split; [lia |]. intros _. split; [reflexivity | assumption].
      * split; [lia | discriminate].
  - destruct (passive_gate env (HotspotsResponse r) s eq_refl) as (-> & -> & ->).
    split; assumption.
  - destruct (passive_gate env (ProvidersResponse r) s eq_refl) as (-> & -> & ->).
    split; assumption.
  - destruct (passive_gate env (MovementTick db random) s eq_refl) as (-> & -> & ->).
    split; assumption.
Qed.

Lemma mount_oneInFlight (env : Env) (storage : gmap string string) :
  oneInFlight (step env (initialState storage) Mount).
Proof.
  unfold oneInFlight.
  destruct (step_gate env (initialState storage) Mount) as (-> & -> & ->).
  js. destruct (bool_decide (demoParam env = Some "true") || _).
  - destruct (bool_decide (demoParam env = Some "true")); js;
      unfold initialState; js_fields; (split; [lia | discriminate]).
  - destruct (geolocationSupported env); js; unfold initialState; js_fields.
    + split; [lia |]. intros _. split; [reflexivity | discriminate].
    + split; [lia | discriminate].
Qed.

Lemma run_oneInFlight (env : Env) (events : list Event) :
  forall s,
    oneInFlight s -> feasible env events s = true -> Mount ∉ events ->
    oneInFlight (run env events s).
Proof.
  induction events as [| e events IH]; intros s Hs Hf Hm; [exact Hs |].
  cbn [feasible] in Hf. apply andb_true_iff in Hf as [Hoff Hf].
  apply not_elem_of_cons in Hm as [Hne Hm].
  cbn [run fold_left]. apply IH; [| exact Hf | exact Hm].
  apply step_oneInFlight; auto.
Qed.

(** X8.  In a session, the mount effect followed by events the screens
    offer, at most one geolocation request of the access check is in
    flight. *)
Theorem one_access_check_in_flight (env : Env) (storage : gmap string string)
  (events : list Event) :
  feasible env (Mount :: events) (initialState storage) = true ->
  Mount ∉ events ->
  geoPending (run env (Mount :: events) (initialState storage)) <= 1.
Proof.
  intros Hf Hm. cbn [feasible] in Hf. apply andb_true_iff in Hf as [_ Hf].
  apply (run_oneInFlight env events _ (mount_oneInFlight env storage) Hf Hm).
Qed.

Lemma one_access_check_in_flight_witness :
  geoPending
    (run demoEnv [Mount; SplashTimer; Navigate ToMap; ExitDemo] (initialState ∅))
  <= 1.
Proof.
  apply (one_access_check_in_flight demoEnv ∅ [SplashTimer; Navigate ToMap; ExitDemo]).
  - vm_compute. reflexivity.
  - intros H. repeat (apply elem_of_cons in H as [H | H]; [discriminate H |]).
    apply elem_of_nil in H. exact H.
Defined.

Lemma providersTracked_refl (s : State) : providersTracked s s.
Proof. split; [lia | auto]. Qed.

Lemma providersTracked_trans (a b c : State) :
  providersTracked a b -> providersTracked b c -> providersTracked a c.
Proof.
  intros [H1 H2] [H3 H4]. split; [lia |]. intros H.
  assert (providersVersion b = providersVersion a) by lia.
  assert (providersVersion c = providersVersion b) by lia.
  rewrite H4, H2; auto.
Qed.

Lemma handle_providersTracked (env : Env) (e : Event) :
  keeps providersTracked (handle env e).
Proof.
  destruct e; handlers_unfold;
    keeps_tac providersTracked_refl providersTracked_trans
      ltac:(solve [split; cbn; [lia | intros; first [reflexivity | lia]]]).
Qed.

Lemma nonempty_length {A : Type} (l : list A) : (0 <? length l) = true <-> l ≠ [].
Proof. destruct l; cbn; split; (congruence || discriminate || auto). Qed.

Lemma movementEffect_settles (s : State) :
  timerInv s -> timerSettled s ∨ movementDeps s ≠ Some (showProviderMovement s, providersVersion s) ->
  timerSettled (exec movementEffect s).
Proof.
  intros [Hn Hinv] Hcase. unfold timerSettled. js.
  destruct (bool_decide _) eqn:Hdeps; js.
  - apply bool_decide_eq_true in Hdeps.
    destruct Hcase as [Hk | Hk]; [exact Hk | contradiction].
  - clear Hcase Hdeps.
    assert (Hcond : forall b, b = (showProviderMovement s && (0 <? length (providers s))) ->
              (b = true <-> showProviderMovement s = true ∧ providers s ≠ [])).
    { intros b ->. rewrite andb_true_iff, nonempty_length. tauto. }
    destruct Hinv as [[Hc Ht] | (id & version & Hid & Hc & Hm & Ht & Hd)].
    + rewrite Hc. js.
      destruct (showProviderMovement s && (0 <? length (providers s))) eqn:Hshow; js;
        specialize (Hcond _ eq_refl).
      * split; [reflexivity |]. rewrite <- Hcond. split; [auto | discriminate].
      * split; [reflexivity |]. rewrite <- Hcond, Ht. split; [congruence | discriminate].
    + rewrite Hc, Hm. js. rewrite bool_decide_eq_false_2 by assumption. js.
      rewrite Ht, filter_other_singleton.
      destruct (showProviderMovement s && (0 <? length (providers s))) eqn:Hshow; js;
        specialize (Hcond _ eq_refl).
      * split; [reflexivity |]. rewrite <- Hcond. split; [auto | discriminate].
      * split; [reflexivity |]. rewrite <- Hcond. split; [congruence | discriminate].
Qed.

Lemma step_settles (env : Env) (s : State) (e : Event) :
  timerInv s -> timerSettled s ∨ timerFresh s -> timerSettled (step env s e).
Proof.
  intros Hinv Hs. unfold step.
  pose proof (handle_sameTimers env e s) as Hview.
  pose proof (handle_providersTracked env e s) as [Hver Hprov].
  fold (exec (handle env e) s) in Hview, Hver, Hprov.
  set (s1 := exec (handle env e) s) in *.
  apply movementEffect_settles; [eapply timerInv_view; eassumption |].
  unfold sameTimers, timerView in Hview. injection Hview as Ht _ _ _ Hd.
  destruct (decide (movementDeps s1 =
                    Some (showProviderMovement s1, providersVersion s1)))
    as [Heq | Hne]; [left | right; exact Hne].
  destruct Hs as [[Hdeps Hiff] | (Hnone & _ & _)]; [| congruence].
  split; [exact Heq |].
  rewrite Hd, Hdeps in Heq. injection Heq as Hshow Hv.
  rewrite Ht, <- Hshow, Hprov by (symmetry; exact Hv). exact Hiff.
Qed.

(** X9.  After any sequence of events the movement timer is active
    exactly when [showProviderMovement] is set and a provider is
    known. *)
Theorem timer_active_iff (env : Env) (storage : gmap string string)
  (events : list Event) :
  let s := run env events (initialState storage) in
  timers s ≠ [] <-> showProviderMovement s = true ∧ providers s ≠ [].
Proof.
  cbv zeta.
  assert (H : timerSettled (run env events (initialState storage)) ∨
              timerFresh (run env events (initialState storage))).
  { induction events as [| e events IH] using rev_ind.
    - right. repeat split.
    - left. rewrite run_snoc. apply step_settles; [| exact IH].
      apply run_inv, initial_inv. }
  destruct H as [[_ H] | (_ & Ht & Hshow)]; [exact H |].
  rewrite Ht, Hshow. split; [congruence | intros [? _]; discriminate].
Qed.

(** ** Live feed effects *)

Lemma granted_dec (s : State) : {granted s} + {¬ granted s}.
Proof.
  unfold granted.
  destruct (decide (currentScreen s = Screen.checking)) as [H | H];
    [right; tauto |].
  destruct (decide (currentScreen s = Screen.blocked)) as [H' | H'];
    [right; tauto | left; tauto].
Qed.

Lemma granted_accessState (s : State) :
  granted s <-> exists demo, accessState s = Granted demo.
Proof.
  unfold granted, accessState. destruct (currentScreen s); split;
    try (intros [? ?]; congruence); try (intros _; eauto);
    try (intros [? ?]; discriminate); try (split; discriminate).
Qed.

Lemma fetchEffect_frame (f : Feed) :
  app (fetchEffect f) = app f ∧ channels (fetchEffect f) = channels f ∧
  nextChannel (fetchEffect f) = nextChannel f ∧
  subscriptionDeps (fetchEffect f) = subscriptionDeps f ∧
  subscriptionCleanup (fetchEffect f) = subscriptionCleanup f.
Proof.
  unfold fetchEffect. cbv zeta. destruct (bool_decide _); repeat split.
Qed.

Lemma subscriptionEffectCleanup_frame (f : Feed) :
  app (subscriptionEffectCleanup f) = app f ∧
  nextChannel (subscriptionEffectCleanup f) = nextChannel f ∧
  subscriptionDeps (subscriptionEffectCleanup f) = subscriptionDeps f.
Proof.
  unfold subscriptionEffectCleanup. cbv zeta.
  destruct (bool_decide _); [| destruct (subscriptionCleanup f)]; repeat split.
Qed.

(** When the dependencies changed, the cleanup leaves no channel open. *)
Lemma subscriptionEffectCleanup_channels (f : Feed) :
  subscriptionDeps f ≠ Some (currentScreen (app f)) ->
  (channels f = [] ∧ subscriptionCleanup f = None ∨
   exists channel, channels f = [channel] ∧ subscriptionCleanup f = Some channel) ->
  channels (subscriptionEffectCleanup f) = [].
Proof.
  intros Hd H. unfold subscriptionEffectCleanup. cbv zeta.
  rewrite bool_decide_eq_false_2 by exact Hd.
  destruct H as [(Hc & ->) | (ch & Hc & ->)]; [exact Hc |].
  cbn [removeChannel channels]. rewrite Hc. cbn.
  destruct (decide (ch ≠ ch)); [contradiction | reflexivity].
Qed.

Lemma commitEffects_subscribed (f : Feed) :
  (subscriptionDeps f = None ∧ channels f = [] ∧ subscriptionCleanup f = None) ∨
  (exists screen,
     subscriptionDeps f = Some screen ∧
     ((screen = Screen.checking ∨ screen = Screen.blocked) ∧
      channels f = [] ∧ subscriptionCleanup f = None ∨
      (screen ≠ Screen.checking ∧ screen ≠ Screen.blocked) ∧
      exists channel, channels f = [channel] ∧ subscriptionCleanup f = Some channel)) ->
  subscribed (commitEffects f).
Proof.
  intros H. unfold commitEffects.
  destruct (fetchEffect_frame (subscriptionEffectCleanup f))
    as (Happ & Hch & _ & Hdeps & Hcl).
  destruct (subscriptionEffectCleanup_frame f) as (Happ' & _ & Hdeps').
  rewrite Happ' in Happ. rewrite Hdeps' in Hdeps.
  unfold subscribed, subscriptionEffect, granted. cbv zeta.
  rewrite Hdeps, Happ.
  destruct (bool_decide (subscriptionDeps f = Some (currentScreen (app f)))) eqn:Hd.
  - apply bool_decide_eq_true in Hd. rewrite Hdeps, Happ, Hch, Hcl.
    unfold subscriptionEffectCleanup. cbv zeta.
    rewrite bool_decide_eq_true_2 by exact Hd.
    split; [exact Hd |].
    destruct H as [(Hn & _) | (screen & Hs & H)]; [congruence |].
    assert (screen = currentScreen (app f)) by congruence. subst screen.
    destruct H as [(Hg & Hc & Hcl') | (Hg & Hch')]; [left | right; auto].
    repeat split; try assumption. tauto.
  - apply bool_decide_eq_false in Hd.
    assert (Hnone : channels (subscriptionEffectCleanup f) = []).
    { apply subscriptionEffectCleanup_channels; [exact Hd |].
      destruct H as [(_ & Hc & Hcl') | (screen & _ & [(_ & Hc & Hcl') | (_ & Hex)])];
        auto. }
    destruct (bool_decide (currentScreen (app f) = Screen.blocked)) eqn:Hb;
      [| destruct (bool_decide (currentScreen (app f) = Screen.checking)) eqn:Hc];
      cbn [orb app channels subscriptionDeps subscriptionCleanup];
      rewrite ?Happ, ?Hch, ?Hnone.
    + apply bool_decide_eq_true in Hb. split; [reflexivity |]. left.
      repeat split; tauto.
    + apply bool_decide_eq_true in Hc. split; [reflexivity |]. left.
      repeat split; tauto.
    + apply bool_decide_eq_false in Hb, Hc. split; [reflexivity |]. right.
      split; [tauto |]. eauto.
Qed.

Lemma subscribed_next (f : Feed) (s : State) :
  subscribed f -> subscribed (commitEffects (withApp s f)).
Proof.
  intros [Hd H]. apply commitEffects_subscribed. right.
  cbn [withApp channels subscriptionDeps subscriptionCleanup].
  exists (currentScreen (app f)). split; [exact Hd |].
  unfold granted in H.
  destruct H as [(Hg & Hc & Hcl) | (Hg & Hch)]; [left | right; auto].
  repeat split; try assumption.
  destruct (decide (currentScreen (app f) = Screen.checking)); [tauto |].
  destruct (decide (currentScreen (app f) = Screen.blocked)); tauto.
Qed.

Lemma feedRun_subscribed (env : Env) (events : list Event)
  (storage : gmap string string) :
  subscribed (feedRun env events storage).
Proof.
  unfold feedRun. induction events as [| e events IH] using rev_ind.
  - cbn [fold_left]. unfold feedLaunch. apply commitEffects_subscribed.
    left. repeat split.
  - rewrite fold_left_app. cbn [fold_left]. unfold feedStep at 1.
    apply subscribed_next, IH.
Qed.

(** X13.  After the first render and any sequence of events, at most one
    realtime channel is open, and one is open exactly when the component
    is past the gate (neither checking nor blocked). *)
Theorem one_channel_past_the_gate (env : Env) (events : list Event)
  (storage : gmap string string) :
  let f := feedRun env events storage in
  length (channels f) <= 1 ∧
  (channels f ≠ [] <-> exists demo, accessState (app f) = Granted demo).
Proof.
  cbv zeta. rewrite <- granted_accessState.
  destruct (feedRun_subscribed env events storage)
    as [_ [(Hg & -> & _) | (Hg & ch & -> & _)]]; cbn.
  - split; [lia | tauto].
  - split; [lia |]. split; [auto | discriminate].
Qed.

Lemma staysChecked_refl (s : State) : staysChecked s s.
Proof. intros H. exact H. Qed.

Lemma staysChecked_trans (a b c : State) :
  staysChecked a b -> staysChecked b c -> staysChecked a c.
Proof. unfold staysChecked. auto. Qed.

Lemma handle_staysChecked (env : Env) (e : Event) :
  keeps staysChecked (handle env e).
Proof.
  destruct e; handlers_unfold;
    keeps_tac staysChecked_refl staysChecked_trans
      ltac:(solve [intros H; first [exact H | reflexivity]]).
Qed.

Lemma sameCheck_refl (s : State) : sameCheck s s.
Proof. split; reflexivity. Qed.

Lemma sameCheck_trans (a b c : State) : sameCheck a b -> sameCheck b c -> sameCheck a c.
Proof. intros [? ?] [? ?]. split; congruence. Qed.

Lemma passive_sameCheck (env : Env) (e : Event) :
  passive e = true -> keeps sameCheck (handle env e).
Proof.
  intros H. destruct e; try discriminate H; handlers_unfold;
    keeps_tac sameCheck_refl sameCheck_trans ltac:(solve [split; reflexivity]).
Qed.

Lemma handle_checked (env : Env) (e : Event) (s : State) :
  checkedLeftChecking s -> checkedLeftChecking (exec (handle env e) s).
Proof.
  unfold checkedLeftChecking. intros Hs.
  destruct e as [| [latitude longitude | error] | | target | p | | | r | r | db random];
    try (lazymatch goal with
         | |- context [handle env ?ev] =>
             destruct (passive_sameCheck env ev eq_refl s) as [Hl Hc]
         end;
         unfold exec; rewrite Hl, Hc; exact Hs).
  - js. destruct (bool_decide (demoParam env = Some "true") || _).
    + destruct (bool_decide (demoParam env = Some "true")); js; discriminate.
    + destruct (geolocationSupported env); js; [exact Hs | discriminate].
  - js. destruct (geoPending s); js; [exact Hs |].
    destruct (Rle_dec _ _); js; discriminate.
  - js. destruct (geoPending s); js; [exact Hs | discriminate].
  - js. destruct (currentScreen s) eqn:Hscr; js; try rewrite Hscr;
      first [exact Hs | intros _; discriminate].
  - destruct target; js; discriminate.
  - js. discriminate.
  - js. discriminate.
  - js. destruct (bool_decide (demoParam env = Some "true") || _).
    + destruct (bool_decide (demoParam env = Some "true")); js; discriminate.
    + destruct (geolocationSupported env); js; [exact Hs | discriminate].
Qed.

Lemma step_checked (env : Env) (s : State) (e : Event) :
  checkedLeftChecking s -> checkedLeftChecking (step env s e).
Proof.
  intros Hs. pose proof (handle_checked env e s Hs) as H.
  assert (Hv := step_fields env s e). unfold appView in Hv.
  injection Hv as Hscr _ _ _ _ _ _ Hl _ _ _.
  unfold checkedLeftChecking in *. rewrite Hscr, Hl. exact H.
Qed.

Lemma step_staysChecked (env : Env) (s : State) (e : Event) :
  locationChecked s = true -> locationChecked (step env s e) = true.
Proof.
  intros Hs. assert (Hv := step_fields env s e). unfold appView in Hv.
  injection Hv as _ _ _ _ _ _ _ Hl _ _ _. rewrite Hl.
  apply (handle_staysChecked env e s Hs).
Qed.

Lemma app_commitEffects (f : Feed) : app (commitEffects f) = app f.
Proof.
  unfold commitEffects.
  destruct (fetchEffect_frame (subscriptionEffectCleanup f)) as (Happ & _).
  destruct (subscriptionEffectCleanup_frame f) as (Happ' & _).
  rewrite <- Happ', <- Happ. unfold subscriptionEffect. cbv zeta.
  destruct (bool_decide _); [reflexivity |].
  destruct (_ || _); reflexivity.
Qed.

Lemma app_feedStep (env : Env) (f : Feed) (e : Event) :
  app (feedStep env f e) = step env (app f) e.
Proof. unfold feedStep. rewrite app_commitEffects. reflexivity. Qed.

Lemma app_feedRun (env : Env) (events : list Event) (storage : gmap string string) :
  app (feedRun env events storage) = run env events (initialState storage).
Proof.
  unfold feedRun. induction events as [| e events IH] using rev_ind.
  - cbn [fold_left run]. unfold feedLaunch. rewrite app_commitEffects.
    reflexivity.
  - rewrite fold_left_app. cbn [fold_left]. rewrite app_feedStep, IH.
    rewrite run_snoc. reflexivity.
Qed.

Lemma run_checked (env : Env) (events : list Event) (storage : gmap string string) :
  checkedLeftChecking (run env events (initialState storage)).
Proof.
  induction events as [| e events IH] using rev_ind.
  - intros H. discriminate H.
  - rewrite run_snoc. apply step_checked, IH.
Qed.

Lemma subscriptionEffectCleanup_trace (f : Feed) :
  exists removed, feedTrace (subscriptionEffectCleanup f) = feedTrace f ++ removed ∧
                  queries removed = [].
Proof.
  unfold subscriptionEffectCleanup. cbv zeta.
  destruct (bool_decide _); [exists []; rewrite app_nil_r; auto |].
  destruct (subscriptionCleanup f) as [channel |]; cbn [feedTrace removeChannel].
  - eexists. split; reflexivity.
  - exists []. rewrite app_nil_r. auto.
Qed.

Lemma subscriptionEffect_trace (f : Feed) :
  exists added, feedTrace (subscriptionEffect f) = feedTrace f ++ added ∧
                queries added = [].
Proof.
  unfold subscriptionEffect. cbv zeta.
  destruct (bool_decide _); [exists []; rewrite app_nil_r; auto |].
  destruct (_ || _); cbn [feedTrace].
  - exists []. rewrite app_nil_r. auto.
  - eexists. split; reflexivity.
Qed.

Lemma fetchEffect_trace (f : Feed) :
  feedTrace (fetchEffect f) = feedTrace f ∨
  (feedTrace (fetchEffect f) = feedTrace f ++ [SelectHotspots; SelectProviders] ∧
   locationChecked (app f) = true ∧ currentScreen (app f) ≠ Screen.blocked).
Proof.
  unfold fetchEffect. cbv zeta. destruct (bool_decide _); [left; reflexivity |].
  cbn [feedTrace].
  destruct (locationChecked (app f)); cbn [andb]; [| left; reflexivity].
  destruct (bool_decide (currentScreen (app f) = Screen.blocked)) eqn:Hb;
    cbn [negb]; [left; reflexivity |].
  apply bool_decide_eq_false in Hb. right. auto.
Qed.

Lemma commitEffects_trace (f : Feed) :
  exists added,
    feedTrace (commitEffects f) = feedTrace f ++ added ∧
    (queries added = [] ∨
     queries added = [SelectHotspots; SelectProviders] ∧
     locationChecked (app f) = true ∧ currentScreen (app f) ≠ Screen.blocked).
Proof.
  unfold commitEffects.
  destruct (subscriptionEffect_trace (fetchEffect (subscriptionEffectCleanup f)))
    as (sub & -> & Hsub).
  destruct (subscriptionEffectCleanup_frame f) as (Happ & _).
  destruct (subscriptionEffectCleanup_trace f) as (removed & Hrem & Hremoved).
  destruct (fetchEffect_trace (subscriptionEffectCleanup f))
    as [-> | (-> & Hl & Hb)]; rewrite Hrem, <- ?app_assoc;
    eexists; (split; [reflexivity |]); unfold queries in *;
    rewrite ?omap_app, Hremoved, Hsub.
  - left. reflexivity.
  - right. rewrite Happ in Hl, Hb. auto.
Qed.

Lemma feedStep_trace (env : Env) (f : Feed) (e : Event) :
  exists added,
    feedTrace (feedStep env f e) = feedTrace f ++ added ∧
    (queries added = [] ∨
     queries added = [SelectHotspots; SelectProviders] ∧
     locationChecked (step env (app f) e) = true ∧
     currentScreen (step env (app f) e) ≠ Screen.blocked).
Proof.
  unfold feedStep. apply (commitEffects_trace (withApp (step env (app f) e) f)).
Qed.

(** X14.  Data is fetched only past the gate.  The first render sends no
    query; a step sends the two queries, hotspots then providers, or
    none, and only when it ends past the gate; and as long as the
    location check has not completed no query has been sent at all. *)
Theorem queries_only_past_the_gate (env : Env) (events : list Event)
  (storage : gmap string string) :
  let f := feedRun env events storage in
  queries (feedTrace (feedLaunch storage)) = [] ∧
  (forall e : Event,
     let sent := queries (drop (length (feedTrace f)) (feedTrace (feedStep env f e))) in
     sent = [] ∨
     sent = [SelectHotspots; SelectProviders] ∧
     exists demo, accessState (app (feedStep env f e)) = Granted demo) ∧
  (locationChecked (app f) = false -> queries (feedTrace f) = []).
Proof.
  cbv zeta. split; [reflexivity | split].
  - intros e. destruct (feedStep_trace env (feedRun env events storage) e)
      as (added & -> & [Hq | (Hq & Hl & Hb)]);
      rewrite drop_app_length; [left; exact Hq | right].
    split; [exact Hq |]. apply granted_accessState.
    rewrite app_feedStep, app_feedRun in *. split; [| exact Hb].
    apply (step_checked env _ e (run_checked env events storage)), Hl.
  - unfold feedRun. induction events as [| e events IH] using rev_ind.
    + intros _. reflexivity.
    + rewrite fold_left_app. cbn [fold_left]. intros Hl.
      fold (feedRun env events storage) in *.
      destruct (feedStep_trace env (feedRun env events storage) e)
        as (added & -> & [Hq | (Hq & Hl' & _)]).
      * unfold queries in *. rewrite omap_app, Hq, app_nil_r. apply IH.
        destruct (locationChecked (app (feedRun env events storage))) eqn:Hc;
          [| reflexivity].
        rewrite app_feedStep in Hl.
        rewrite (step_staysChecked env _ e Hc) in Hl. discriminate Hl.
      * rewrite app_feedStep in Hl. congruence.
Qed.

(** ** The user's location on the map *)

Lemma location_step_known (env : Env) (l : MapLocation.t) (e : MapLocation.Event) :
  is_Some (MapLocation.userLocation l) ->
  is_Some (MapLocation.userLocation (MapLocation.step env l e)).
Proof.
  intros [v Hv]. destruct e as [screen | | o]; cbn.
  - unfold MapLocation.screenChanged. rewrite Hv. destruct screen; cbn; rewrite Hv; eauto.
  - unfold MapLocation.getUserLocation.
    destruct (geolocationSupported env); cbn; [rewrite Hv |]; eauto.
  - unfold MapLocation.answered. destruct (MapLocation.pending l); [rewrite Hv; eauto |].
    destruct o; cbn; eauto.
Qed.

(** X15.  An answer to a location request in flight always leaves a
    location: the position delivered, or on an error the Trichy centre,
    also when a real position was known before.  Once a location is
    known it stays known through every event, the map is centred on it,
    and a change of screen issues no further request. *)
Theorem userLocation_settles (env : Env) (l : MapLocation.t) :
  (forall o : GeoOutcome,
     MapLocation.pending l ≠ 0 ->
     MapLocation.userLocation (MapLocation.answered o l) =
     Some (match o with
           | Position latitude longitude => (latitude, longitude)
           | PositionError _ => MapLocation.center
           end)) ∧
  (is_Some (MapLocation.userLocation l) ->
   forall events : list MapLocation.Event,
     let l' := MapLocation.run env events l in
     MapLocation.userLocation l' = Some (MapLocation.mapCenter l') ∧
     forall screen,
       MapLocation.pending (MapLocation.screenChanged env screen l') =
       MapLocation.pending l').
Proof.
  split.
  - intros o Hp. unfold MapLocation.answered.
    destruct (MapLocation.pending l); [contradiction |]. destruct o; reflexivity.
  - intros Hl events. cbv zeta.
    assert (Hk : is_Some (MapLocation.userLocation (MapLocation.run env events l))).
    { unfold MapLocation.run. revert l Hl.
      induction events as [| e events IH]; intros l Hl; [exact Hl |].
      cbn [fold_left]. apply IH, location_step_known, Hl. }
    destruct Hk as [v Hv]. unfold MapLocation.mapCenter, MapLocation.screenChanged.
    rewrite Hv. split; [reflexivity |]. intros screen. destruct screen; reflexivity.
Qed.

Lemma userLocation_settles_witness :
  MapLocation.userLocation
    (MapLocation.answered (PositionError permissionDenied)
       (MapLocation.getUserLocation plainEnv (MapLocation.setUserLocation (10.85, 78.72)%R MapLocation.initial))) =
  Some MapLocation.center.
Proof.
  apply (proj1 (userLocation_settles plainEnv
           (MapLocation.getUserLocation plainEnv
              (MapLocation.setUserLocation (10.85, 78.72)%R MapLocation.initial)))
           (PositionError permissionDenied)).
  discriminate.
Defined.

(** X16.  [MapUpdater] fits the map to the providers exactly when there
    is one: it never calls [fitBounds] with an empty list, and the
    bounds are the providers' coordinates, one each, in order. *)
Theorem mapUpdater_bounds (providers : list Provider.t) :
  (mapUpdater providers = None <-> providers = []) ∧
  (forall bounds,
     mapUpdater providers = Some bounds ->
     bounds ≠ [] ∧
     bounds = List.map (fun p => (Provider.latitude p, Provider.longitude p)) providers).
Proof.
  unfold mapUpdater. destruct providers as [| p ps]; cbn.
  - split; [tauto | discriminate].
  - split; [split; discriminate |]. intros bounds H. injection H as <-.
    split; [discriminate | reflexivity].
Qed.

(** ** The early prototype *)

(** X17.  With [Math.random] in [[0, 1)] the mock arrival time of a
    provider is a whole number of minutes from 1 to 10. *)
Theorem mockEta_range (random : R) :
  (0 <= random < 1)%R -> (1 <= Jamm.mockEta random <= 10)%Z.
Proof.
  intros [H0 H1]. unfold Jamm.mockEta.
  assert (Hl : (0 <= Zfloor (random * 10))%Z) by (apply Zfloor_lub; cbn; lra).
  assert (Hu : (Zfloor (random * 10) < 10)%Z).
  { apply lt_IZR. destruct (Zfloor_bound (random * 10)) as [Hb _]. lra. }
  lia.
Qed.

Lemma mockEta_range_witness : (1 <= Jamm.mockEta 0.5 <= 10)%Z.
Proof. apply mockEta_range. lra. Defined.

(** X18.  A provider card shows three seat icons; the available ones
    come first, and there are as many as seats left, capped at three and
    at least none. *)
Theorem seatIcons_count (seatsAvailable : Z) :
  length (Jamm.seatIcons seatsAvailable) = 3 ∧
  Jamm.seatIcons seatsAvailable =
  replicate (Z.to_nat (Z.max 0 (Z.min 3 seatsAvailable))) true ++
  replicate (3 - Z.to_nat (Z.max 0 (Z.min 3 seatsAvailable))) false.
Proof.
  split; [reflexivity |]. unfold Jamm.seatIcons. cbn [List.map].
  destruct (Z.ltb_spec 0 seatsAvailable) as [H0 | H0];
    destruct (Z.ltb_spec 1 seatsAvailable) as [H1 | H1];
    destruct (Z.ltb_spec 2 seatsAvailable) as [H2 | H2]; try lia.
  - replace (Z.max 0 (Z.min 3 seatsAvailable)) with 3%Z by lia. reflexivity.
  - replace (Z.max 0 (Z.min 3 seatsAvailable)) with 2%Z by lia. reflexivity.
  - replace (Z.max 0 (Z.min 3 seatsAvailable)) with 1%Z by lia. reflexivity.
  - replace (Z.max 0 (Z.min 3 seatsAvailable)) with 0%Z by lia. reflexivity.
Qed.

(** X19.  Hotspot markers are laid out on a diagonal, no two at the same
    place; the marker at [index] is within the height of the map
    container only up to index 3 and within its width only up to
    index 4. *)
Theorem marker_positions (i j : nat) :
  ((Jamm.markerTop i <= 100)%Z <-> i <= 3) ∧
  ((Jamm.markerLeft i <= 100)%Z <-> i <= 4) ∧
  (Jamm.markerTop i = Jamm.markerTop j -> i = j) ∧
  (Jamm.markerLeft i = Jamm.markerLeft j -> i = j).
Proof. unfold Jamm.markerTop, Jamm.markerLeft. repeat split; lia. Qed.

Ltac screen_listed :=
  unfold Jamm.screens;
  repeat first [apply elem_of_cons; left; reflexivity | apply elem_of_cons; right].

Lemma jamm_step_screens (screen : string) (e : Jamm.Event) :
  screen ∈ Jamm.screens -> Jamm.step screen e ∈ Jamm.screens.
Proof.
  intros H. destruct e as [| c]; cbn.
  - destruct (String.eqb screen "splash"); [screen_listed | exact H].
  - destruct (String.eqb screen (Jamm.shownOn c)); [| exact H].
    destruct c; cbn; first [exact H | screen_listed].
Qed.

Lemma jamm_step_intro (screen : string) (e : Jamm.Event) :
  Jamm.intro screen = false -> Jamm.intro (Jamm.step screen e) = false.
Proof.
  unfold Jamm.intro. intros H. apply orb_false_iff in H as [Hs Ho].
  destruct e as [| c]; cbn.
  - rewrite Hs, Hs, Ho. reflexivity.
  - destruct (String.eqb_spec screen (Jamm.shownOn c)) as [-> | _];
      [| rewrite Hs, Ho; reflexivity].
    destruct c; cbn in *; try discriminate; reflexivity.
Qed.

(** X20.  The screen of the prototype, a string, always holds one of the
    six screen names; once past splash and onboarding it never shows
    them again; and the confirmation screen is entered only by a click
    on a provider card on the providers screen. *)
Theorem jamm_screens (events : list Jamm.Event) (e : Jamm.Event) :
  let screen := Jamm.run events in
  screen ∈ Jamm.screens ∧
  (Jamm.intro screen = false -> Jamm.intro (Jamm.step screen e) = false) ∧
  (Jamm.step screen e = "confirmation" -> screen ≠ "confirmation" ->
   screen = "providers" ∧ e = Jamm.Click Jamm.ProviderCard).
Proof.
  cbv zeta. split; [| split].
  - unfold Jamm.run. induction events as [| x events IH] using rev_ind.
    + screen_listed.
    + rewrite fold_left_app. apply jamm_step_screens, IH.
  - apply jamm_step_intro.
  - generalize (Jamm.run events). intros screen Hstep Hne.
    destruct e as [| c]; cbn in Hstep.
    + destruct (String.eqb screen "splash"); [discriminate | contradiction].
    + destruct (String.eqb_spec screen (Jamm.shownOn c)) as [Heq | _];
        [| contradiction].
      destruct c; cbn in *; subst screen; try discriminate;
        try contradiction; auto.
Qed.

Lemma jamm_screens_witness :
  Jamm.run [Jamm.SplashTimer; Jamm.Click Jamm.Skip; Jamm.Click Jamm.HotspotItem] =
  "providers" ∧
  Jamm.Click Jamm.ProviderCard = Jamm.Click Jamm.ProviderCard.
Proof.
  apply (proj2 (proj2 (jamm_screens
           [Jamm.SplashTimer; Jamm.Click Jamm.Skip; Jamm.Click Jamm.HotspotItem]
           (Jamm.Click Jamm.ProviderCard))));
    [reflexivity | discriminate].
Defined.

(** ** More on the movement simulator *)

Lemma fetchProviders_ok_step (env : Env) (data : list Provider.t) (s : State) :
  exec (handle env (ProvidersResponse (Resolved (Some data) None))) s =
  set_providers data (set_providersVersion (S (providersVersion s)) s).
Proof. reflexivity. Qed.



Lemma run_settled (env : Env) (events : list Event) (storage : gmap string string) :
  timerSettled (run env events (initialState storage)) ∨
  timerFresh (run env events (initialState storage)).
Proof.
  induction events as [| e events IH] using rev_ind.
  - right. repeat split.
  - left. rewrite run_snoc. apply step_settles; [| exact IH].
    apply run_inv, initial_inv.
Qed.

(** X21.  A tick of the movement simulator, in either variant, changes
    nothing of the component but the trace of effects: the local
    provider snapshot is never moved directly, only through the backing
    store. *)
Theorem tick_leaves_snapshot (db : DbWrite) (random : nat -> R) (s : State) :
  (let s' := exec (simulateProviderMovement db random) s in
   s' = set_trace (trace s') s) ∧
  (let s' := exec (V1.simulateProviderMovement db random) s in
   s' = set_trace (trace s') s).
Proof.
  split; cbv zeta; unfold exec.
  - pose proof (tick_result db random rejected (moveAndDrop db random) s
                  (forOf_moveAndDrop db random)) as H.
    cbv zeta in H. unfold simulateProviderMovement.
    unfold moveAndDrop in H. rewrite H. reflexivity.
  - pose proof (tick_result db random failed (moveAndThrow db random) s
                  (forOf_moveAndThrow db random)) as H.
    cbv zeta in H. unfold V1.simulateProviderMovement.
    unfold moveAndThrow in H. rewrite H. reflexivity.
Qed.

(** X22.  Every refresh of the provider list restarts the movement
    timer.  When the timer [id] is active and a provider fetch answers
    with a non-empty list, the step clears [id] and starts a new timer,
    so the three seconds start over. *)
Theorem provider_refresh_restarts_timer (env : Env) (events : list Event)
  (storage : gmap string string) (id : nat) (data : list Provider.t) :
  let s := run env events (initialState storage) in
  let s' := step env s (ProvidersResponse (Resolved (Some data) None)) in
  timers s = [id] -> data ≠ [] ->
  timers s' = [nextTimer s] ∧
  trace s' = trace s ++ [ClearInterval id; SetInterval (nextTimer s)].
Proof.
  cbv zeta. intros Ht Hdata.
  pose proof (run_inv env events _ (initial_inv storage)) as [Hn Hinv].
  pose proof (run_settled env events storage) as Hset.
  set (s := run env events (initialState storage)) in *.
  destruct Hinv as [[_ Hnil] | (id' & version & Hid & Hc & Hm & Ht' & Hd)];
    [congruence |].
  assert (id' = id) by congruence. subst id'.
  destruct Hset as [[Hdeps _] | (Hnone & _)]; [| congruence].
  assert (Hshow : showProviderMovement s = true) by congruence.
  assert (Hver : providersVersion s = version) by congruence.
  unfold step. rewrite fetchProviders_ok_step. js.
  rewrite Hshow, Hd.
  rewrite bool_decide_eq_false_2 by (rewrite Hver; intros H; injection H; lia).
  js. rewrite Hc. js. rewrite Hm. js. rewrite bool_decide_eq_false_2 by assumption. js.
  rewrite Ht, filter_other_singleton.
  destruct data as [| p data]; [contradiction |]. cbn [length Nat.ltb Nat.leb andb].
  js. rewrite <- app_assoc. split; reflexivity.
Qed.

Lemma provider_refresh_restarts_timer_witness :
  let s :=
    run demoEnv
      [Mount; SplashTimer; Navigate ToMap;
       ProvidersResponse (Resolved (Some [ravi]) None)]
      (initialState ∅) in
  let s' := step demoEnv s (ProvidersResponse (Resolved (Some [ravi; kumar]) None)) in
  timers s' = [nextTimer s] ∧
  trace s' = trace s ++ [ClearInterval 1; SetInterval (nextTimer s)].
Proof.
  apply (provider_refresh_restarts_timer demoEnv
           [Mount; SplashTimer; Navigate ToMap;
            ProvidersResponse (Resolved (Some [ravi]) None)] ∅ 1 [ravi; kumar]);
    [reflexivity | discriminate].
Defined.
